(** * WebhookManager (src/webhook.ts): a shallow embedding and its properties

    The invalidation-dispatch pipeline of the cache-invalidation proxy:
    debounce gate, pattern interpreter, body/header templater and the
    delivery engine with bounded retry.

    JavaScript strings are sequences of UTF-16 code units; they are modelled
    as [list N].  Records used as string-keyed maps are [gmap]s.  The event
    loop (timers) and the network (fetch) are explicit worlds that the
    operations thread through. *)

From Stdlib Require Import ZArith NArith List Ascii String Bool Lia DecimalString.
From stdpp Require Import base option list gmap.
Import ListNotations.

#[local] Open Scope N_scope.

(** ** JavaScript strings *)

Module JsString.

(** Coercion of an ASCII literal to its code units. *)
Definition js (s : string) : list N :=
  List.map N_of_ascii (list_ascii_of_string s).

Definition dollar : N := 36.
Definition dquote : N := 34.
Definition backslash : N := 92.
Definition comma : N := 44.

(** [WhiteSpace] and [LineTerminator] of ECMA-262, the code units that
    [String.prototype.trim] strips. *)
Definition is_js_space (c : N) : bool :=
  (c =? 9) || (c =? 10) || (c =? 11) || (c =? 12) || (c =? 13) ||
  (c =? 32) || (c =? 160) || (c =? 5760) ||
  ((8192 <=? c) && (c <=? 8202)) ||
  (c =? 8232) || (c =? 8233) || (c =? 8239) || (c =? 8287) ||
  (c =? 12288) || (c =? 65279).

Fixpoint trimStart (s : list N) : list N :=
  match s with
  | [] => []
  | c :: r => if is_js_space c then trimStart r else s
  end.

Definition trimEnd (s : list N) : list N := rev (trimStart (rev s)).

(** [s.trim()] *)
Definition trim (s : list N) : list N := trimEnd (trimStart s).

(** [s.split(sep)] for a separator of one code unit: the first fragment
    and the fragments after it. *)
Fixpoint split_go (sep : N) (s : list N) : list N * list (list N) :=
  match s with
  | [] => ([], [])
  | c :: r =>
      let '(f, fs) := split_go sep r in
      if c =? sep then ([], f :: fs) else (c :: f, fs)
  end.

Definition split (sep : N) (s : list N) : list (list N) :=
  let '(f, fs) := split_go sep s in f :: fs.

(** [fs.join(sep)], the inverse reading of [split]. *)
Fixpoint join (sep : N) (fs : list (list N)) : list N :=
  match fs with
  | [] => []
  | [f] => f
  | f :: rest => f ++ sep :: join sep rest
  end.

Fixpoint eqb (a b : list N) : bool :=
  match a, b with
  | [], [] => true
  | x :: a', y :: b' => (x =? y) && eqb a' b'
  | _, _ => false
  end.

(** [strip_prefix p s] is [Some rest] when [s = p ++ rest]. *)
Fixpoint strip_prefix (p s : list N) : option (list N) :=
  match p with
  | [] => Some s
  | x :: p' =>
      match s with
      | [] => None
      | y :: s' => if x =? y then strip_prefix p' s' else None
      end
  end.

(** [GetSubstitution] of ECMA-262 for a pattern without capture groups:
    in the replacement text [$$] stands for a dollar, [$&] for the matched
    text, [$`] for the text before the match and [$'] for the text after
    it; any other [$] is literal. *)
Fixpoint GetSubstitution (matched before after r : list N) : list N :=
  match r with
  | [] => []
  | c :: r' =>
      if c =? dollar then
        match r' with
        | [] => [c]
        | d :: r'' =>
            if d =? 36 then dollar :: GetSubstitution matched before after r''
            else if d =? 38 then matched ++ GetSubstitution matched before after r''
            else if d =? 96 then before ++ GetSubstitution matched before after r''
            else if d =? 39 then after ++ GetSubstitution matched before after r''
            else c :: GetSubstitution matched before after r'
        end
      else c :: GetSubstitution matched before after r'
  end.

(** [s.replace(/P/g, r)] for a regular expression that matches exactly the
    literal, non-empty text [P]: matches are found from left to right in
    the original string and do not overlap.  [skip] counts the code units
    of the current match still to be passed over, [before] is the consumed
    part of the original string, reversed. *)
Fixpoint replace_go (P r : list N) (skip : nat) (before s : list N) : list N :=
  match s with
  | [] => []
  | c :: s' =>
      match skip with
      | S k => replace_go P r k (c :: before) s'
      | O =>
          match strip_prefix P s with
          | Some after =>
              GetSubstitution P (rev before) after r
                ++ replace_go P r (length P - 1) (c :: before) s'
          | None => c :: replace_go P r O (c :: before) s'
          end
      end
  end.

Definition replace_all (P r s : list N) : list N := replace_go P r O [] s.

(** [s.replace(/^"|"$/g, '')]: a double quote at the start and a double
    quote at the end are removed. *)
Definition drop_last_quote (s : list N) : list N :=
  match rev s with
  | c :: r => if c =? dquote then rev r else s
  | [] => s
  end.

Definition strip_outer_quotes (s : list N) : list N :=
  match s with
  | c :: r => if c =? dquote then drop_last_quote r else drop_last_quote s
  | [] => []
  end.

(** Decimal rendering of an integer, as in a template literal. *)
Definition of_Z (z : Z) : list N := js (NilZero.string_of_int (Z.to_int z)).

End JsString.
Import JsString.

(** ** JSON.stringify on the values the templater serialises *)

Module JSON.

Definition hex_digit (n : N) : N :=
  if n <? 10 then 48 + n else 87 + n.

(** [UnicodeEscape]: a backslash, [u] and four lowercase hex digits. *)
Definition unicode_escape (c : N) : list N :=
  [backslash; 117;
   hex_digit (c / 4096 mod 16); hex_digit (c / 256 mod 16);
   hex_digit (c / 16 mod 16); hex_digit (c mod 16)].

Definition is_high_surrogate (c : N) : bool := (55296 <=? c) && (c <=? 56319).
Definition is_low_surrogate (c : N) : bool := (56320 <=? c) && (c <=? 57343).

(** One code point that is a single code unit. *)
Definition quote_unit (c : N) : list N :=
  if c =? 8 then [backslash; 98]
  else if c =? 9 then [backslash; 116]
  else if c =? 10 then [backslash; 110]
  else if c =? 12 then [backslash; 102]
  else if c =? 13 then [backslash; 114]
  else if c =? dquote then [backslash; dquote]
  else if c =? backslash then [backslash; backslash]
  else if (c <? 32) || is_high_surrogate c || is_low_surrogate c
       then unicode_escape c
  else [c].

(** The body of [QuoteJSONString]: a surrogate pair is copied, a lone
    surrogate and a control character are escaped. *)
Fixpoint quote_body (s : list N) : list N :=
  match s with
  | [] => []
  | c :: r =>
      if is_high_surrogate c then
        match r with
        | d :: r' =>
            if is_low_surrogate d then c :: d :: quote_body r'
            else quote_unit c ++ quote_body r
        | [] => quote_unit c
        end
      else quote_unit c ++ quote_body r
  end.

Definition stringify_string (s : list N) : list N :=
  dquote :: quote_body s ++ [dquote].

Definition stringify_bool (b : bool) : list N :=
  if b then js "true" else js "false".

(** An array of strings, without indentation. *)
Definition stringify_array (l : list (list N)) : list N :=
  91 :: join comma (List.map stringify_string l) ++ [93].

End JSON.


(** ** Data model *)

(** Modelled from the spec: [types.ts] (MiddlewareConfig, InvalidationData)
    is not among the sources; the fields are the ones [webhook.ts] reads and
    the spec's DispatchConfig and InvalidationIntent list.  [secret] and
    [headers] are optional; [retryCount] and [retryDelay] are integers. *)
Record WebhookConfig := {
  url : list N;
  method : list N;
  secret : option (list N);
  headers : option (gmap (list N) (list N));
  bodyTemplate : list N;
  retryCount : Z;
  retryDelay : Z
}.

Record MiddlewareConfig := {
  ghostPublicUrl : list N;
  webhook : WebhookConfig;
  debug : bool
}.

Record InvalidationData := {
  urls : list (list N);
  purgeAll : bool;
  pattern : list N;
  timestamp : list N
}.

(** ** Pattern interpreter *)

(** [parseInvalidationPattern]; [now] is the reading of
    [new Date().toISOString()]. *)
Definition parseInvalidationPattern
    (config : MiddlewareConfig) (now : list N) (pattern : list N) : InvalidationData :=
  let purgeAll := JsString.eqb pattern (js "/$/") || JsString.eqb pattern (js "/*") in
  let urls :=
    if purgeAll
    then [ghostPublicUrl config ++ js "/*"]
    else List.map (fun url => ghostPublicUrl config ++ trim url) (split comma pattern) in
  {| urls := urls; purgeAll := purgeAll; pattern := pattern; timestamp := now |}.

(** ** Templater *)

Definition ph_urls : list N := js "${urls}".
Definition ph_purgeAll : list N := js "${purgeAll}".
Definition ph_timestamp : list N := js "${timestamp}".
Definition ph_pattern : list N := js "${pattern}".
Definition ph_secret : list N := js "${secret}".

(** The four replacement texts handed to [replace]. *)
Definition val_urls (data : InvalidationData) : list N :=
  JSON.stringify_array (urls data).
Definition val_purgeAll (data : InvalidationData) : list N :=
  JSON.stringify_bool (purgeAll data).
Definition val_timestamp (data : InvalidationData) : list N :=
  strip_outer_quotes (JSON.stringify_string (timestamp data)).
Definition val_pattern (data : InvalidationData) : list N :=
  JSON.stringify_string (pattern data).

(** [processTemplate]: four chained global replacements. *)
Definition processTemplate (template : list N) (data : InvalidationData) : list N :=
  replace_all ph_pattern (val_pattern data)
    (replace_all ph_timestamp (val_timestamp data)
       (replace_all ph_purgeAll (val_purgeAll data)
          (replace_all ph_urls (val_urls data) template))).

(** [obj[key] = value] on a plain object: the key [__proto__] reaches the
    setter inherited from [Object.prototype], which ignores a string. *)
Definition obj_set (key value : list N) (obj : gmap (list N) (list N))
    : gmap (list N) (list N) :=
  if decide (key = js "__proto__") then obj else <[key := value]> obj.

(** [secret || ''] *)
Definition secret_or_empty (secret : option (list N)) : list N :=
  match secret with
  | Some s => s
  | None => []
  end.

(** [processHeaderTemplates]: the loop over [Object.entries(headers)]. *)
Definition processHeaderTemplates
    (headers : gmap (list N) (list N)) (secret : option (list N))
    : gmap (list N) (list N) :=
  foldl (fun processedHeaders '(key, value) =>
           obj_set key (replace_all ph_secret (secret_or_empty secret) value)
                   processedHeaders)
        ∅ (map_to_list headers).

(** The header object built by [sendWebhookRequest]: the default content
    type, then the spread of the processed headers over it. *)
Definition request_headers (webhook : WebhookConfig) : gmap (list N) (list N) :=
  processHeaderTemplates (default ∅ (headers webhook)) (secret webhook)
    ∪ {[ js "Content-Type" := js "application/json" ]}.

(** ** Delivery engine *)

(** What a [throw] or a rejected promise carries: an [Error] made by this
    module, or the rejection of [fetch] / [response.text()]. *)
Inductive exn :=
  | Error (message : list N)
  | FetchError (reason : list N).

Record Response := {
  status : Z;
  statusText : list N;
  text : exn + list N
}.

(** [response.ok] *)
Definition ok (r : Response) : bool :=
  ((200 <=? status r) && (status r <=? 299))%Z.

Record Request := {
  req_url : list N;
  req_method : list N;
  req_headers : gmap (list N) (list N);
  req_body : list N
}.

Inductive Event :=
  | EvFetch (request : Request)
  | EvSleep (ms : Z).

(** The network answers the n-th [fetch] (counted from 0) of a run with
    [network n]; [trace] collects what the engine did, oldest first.
    Console output is not part of the world. *)
Record World := {
  network : nat -> exn + Response;
  fetched : nat;
  trace : list Event
}.

Module Async.

(** An async computation: it runs on a world and either returns or
    throws. *)
Definition M (A : Type) : Type := World -> (exn + A) * World.

Definition ret {A} (a : A) : M A := fun w => (inr a, w).

Definition throw {A} (e : exn) : M A := fun w => (inl e, w).

Definition bind {A B} (m : M A) (k : A -> M B) : M B :=
  fun w =>
    match m w with
    | (inr a, w') => k a w'
    | (inl e, w') => (inl e, w')
    end.

(** [try { m } catch (error) { handler }] *)
Definition try_catch {A} (m : M A) (handler : exn -> M A) : M A :=
  fun w =>
    match m w with
    | (inr a, w') => (inr a, w')
    | (inl e, w') => handler e w'
    end.

(** [await fetch(url, { method, headers, body })] *)
Definition fetch (request : Request) : M Response :=
  fun w =>
    (network w (fetched w),
     {| network := network w;
        fetched := S (fetched w);
        trace := trace w ++ [EvFetch request] |}).

(** [await response.text()] *)
Definition response_text (r : Response) : M (list N) :=
  fun w => (text r, w).

(** [await new Promise(resolve => setTimeout(resolve, ms))] *)
Definition sleep (ms : Z) : M unit :=
  fun w =>
    (inr tt,
     {| network := network w;
        fetched := fetched w;
        trace := trace w ++ [EvSleep ms] |}).

End Async.
Import Async.

Notation "x <- m ;; k" := (bind m (fun x => k))
  (at level 100, m at next level, right associativity).
Notation "m ;;; k" := (bind m (fun _ => k))
  (at level 100, right associativity).

(** How one turn of the retry loop ends: by [return] or by falling through
    to the next iteration. *)
Inductive Turn := Returned | Continue.

Section Delivery.

Variable config : MiddlewareConfig.
Variable request : Request.

(** The body of the [for] loop for one value of [attempt]. *)
Definition attempt_once (attempt : Z) : M Turn :=
  try_catch
    (response <- fetch request ;;
     if negb (ok response) then
       errorText <- response_text response ;;
       throw (Error (js "HTTP error " ++ of_Z (status response)
                       ++ js ": " ++ errorText))
     else ret Returned)
    (fun error =>
       if (attempt =? retryCount (webhook config))%Z then throw error
       else sleep (retryDelay (webhook config)) ;;; ret Continue).

(** [for (let attempt = ...; attempt <= webhook.retryCount; attempt++)];
    [remaining] bounds the turns still possible, it is
    [retryCount + 1 - attempt]. *)
Fixpoint retry_loop (remaining : nat) (attempt : Z) : M unit :=
  match remaining with
  | O => ret tt
  | S rest =>
      if (attempt <=? retryCount (webhook config))%Z then
        turn <- attempt_once attempt ;;
        match turn with
        | Returned => ret tt
        | Continue => retry_loop rest (attempt + 1)
        end
      else ret tt
  end.

End Delivery.

(** [sendWebhookRequest]: render body and headers, then the retry loop from
    attempt 1.  The debug printing is left out, it does not touch the
    world. *)
Definition webhook_request (config : MiddlewareConfig) (data : InvalidationData)
    : Request :=
  let webhook := webhook config in
  let body := processTemplate (bodyTemplate webhook) data in
  let headers := request_headers webhook in
  {| req_url := url webhook; req_method := method webhook;
     req_headers := headers; req_body := body |}.

Definition sendWebhookRequest (config : MiddlewareConfig) (data : InvalidationData)
    : M unit :=
  retry_loop config (webhook_request config data)
             (Z.to_nat (retryCount (webhook config))) 1.

(** [triggerWebhook]: interpret the pattern and deliver; a failure is
    logged and thrown again. *)
Definition triggerWebhook (config : MiddlewareConfig) (now : list N)
    (pattern : list N) : M unit :=
  try_catch
    (sendWebhookRequest config (parseInvalidationPattern config now pattern))
    (fun error => throw error).

(** The callback [debouncePurgeCache] hands to [setTimeout]: the failure of
    [triggerWebhook] is logged and goes no further. *)
Definition timer_callback (config : MiddlewareConfig) (now : list N)
    (pattern : list N) : M unit :=
  try_catch (triggerWebhook config now pattern) (fun _ => ret tt).

(** What the engine's caller sees of one attempt: [None] when the answer is
    in the success range, otherwise the error the attempt ends with, made of
    the status and the body text, or the transport's own error. *)
Definition attempt_failure (answer : exn + Response) : option exn :=
  match answer with
  | inl e => Some e
  | inr r =>
      if ok r then None
      else match text r with
           | inl e => Some e
           | inr errorText =>
               Some (Error (js "HTTP error " ++ of_Z (status r)
                               ++ js ": " ++ errorText))
           end
  end.

(** The world after [n] more fetches that left the events [evs]. *)
Definition advance_world (w : World) (n : nat) (evs : list Event) : World :=
  {| network := network w;
     fetched := (fetched w + n)%nat;
     trace := trace w ++ evs |}.

(** The events of [n] failed attempts, each followed by the retry delay. *)
Definition failed_turns (request : Request) (delay : Z) (n : nat) : list Event :=
  concat (repeat [EvFetch request; EvSleep delay] n).

Definition is_fetch (e : Event) : bool :=
  match e with EvFetch _ => true | EvSleep _ => false end.

Definition fetch_count (evs : list Event) : nat :=
  length (List.filter is_fetch evs).

(** The delays slept, in order. *)
Fixpoint sleeps (evs : list Event) : list Z :=
  match evs with
  | [] => []
  | EvSleep ms :: rest => ms :: sleeps rest
  | EvFetch _ :: rest => sleeps rest
  end.

(** ** Debounce gate *)

(** A pending [setTimeout]: its handle, the time it is due and the pattern
    its callback closed over. *)
Record Timer := {
  timer_id : nat;
  due : Z;
  callback_pattern : list N
}.

(** The dispatcher instance on its event loop.  [timers] are the pending
    timers in the order they were set; [dispatched] lists the patterns the
    fired callbacks passed to [triggerWebhook], oldest first.  Time is in
    milliseconds. *)
Record Loop := {
  clock : Z;
  timers : list Timer;
  next_timer : nat;
  cachePurgeTimeout : option nat;
  dispatched : list (list N)
}.

Definition debounceTime : Z := 10000.

Definition new_dispatcher (t0 : Z) : Loop :=
  {| clock := t0; timers := []; next_timer := 0%nat;
     cachePurgeTimeout := None; dispatched := [] |}.

(** [clearTimeout(handle)]; a handle that is not pending is ignored. *)
Definition clearTimeout (handle : nat) (l : Loop) : Loop :=
  {| clock := clock l;
     timers := List.filter (fun tm => negb (Nat.eqb (timer_id tm) handle)) (timers l);
     next_timer := next_timer l;
     cachePurgeTimeout := cachePurgeTimeout l;
     dispatched := dispatched l |}.

(** [setTimeout(callback, delay)], the callback being the dispatch of
    [pattern]. *)
Definition setTimeout (pattern : list N) (delay : Z) (l : Loop) : nat * Loop :=
  (next_timer l,
   {| clock := clock l;
      timers := timers l ++ [{| timer_id := next_timer l;
                                due := (clock l + delay)%Z;
                                callback_pattern := pattern |}];
      next_timer := S (next_timer l);
      cachePurgeTimeout := cachePurgeTimeout l;
      dispatched := dispatched l |}).

(** [debouncePurgeCache] *)
Definition debouncePurgeCache (pattern : list N) (l : Loop) : Loop :=
  let l1 :=
    match cachePurgeTimeout l with
    | Some handle => clearTimeout handle l
    | None => l
    end in
  let '(handle, l2) := setTimeout pattern debounceTime l1 in
  {| clock := clock l2; timers := timers l2; next_timer := next_timer l2;
     cachePurgeTimeout := Some handle; dispatched := dispatched l2 |}.

Definition is_due (t : Z) (tm : Timer) : bool := (due tm <=? t)%Z.

(** The event loop runs up to time [t]: the timers due by then fire, in the
    order they were set (all are set with the same delay). *)
Definition run_timers (t : Z) (l : Loop) : Loop :=
  {| clock := Z.max (clock l) t;
     timers := List.filter (fun tm => negb (is_due t tm)) (timers l);
     next_timer := next_timer l;
     cachePurgeTimeout := cachePurgeTimeout l;
     dispatched := dispatched l
                   ++ List.map callback_pattern (List.filter (is_due t) (timers l)) |}.

(** A call of [schedule] arriving at time [fst call] with pattern
    [snd call]. *)
Definition arrive (l : Loop) (call : Z * list N) : Loop :=
  debouncePurgeCache (snd call) (run_timers (fst call) l).

Definition run (calls : list (Z * list N)) (l : Loop) : Loop :=
  fold_left arrive calls l.



(** The pending timers are at most the one the instance holds the handle
    of. *)
Definition single_timer (l : Loop) : Prop :=
  timers l = [] \/
  exists tm, timers l = [tm] /\ cachePurgeTimeout l = Some (timer_id tm).

(** The state in the middle of a burst: the dispatch of [p], set at time
    [t], is the one pending timer, and nothing was dispatched since the
    burst began. *)
Definition waiting (done : list (list N)) (t : Z) (p : list N) (l : Loop) : Prop :=
  clock l = t /\
  dispatched l = done /\
  exists handle,
    timers l = [{| timer_id := handle; due := (t + debounceTime)%Z;
                   callback_pattern := p |}] /\
    cachePurgeTimeout l = Some handle.

(** ** The body templater in the words of the specification *)

(** The templater as the specification words it: one left-to-right pass
    over the template in which an occurrence of any of the placeholders is
    replaced by its value and the text of the values is not looked at
    again. *)
Fixpoint first_match (subs : list (list N * list N)) (s : list N)
    : option (list N * list N) :=
  match subs with
  | [] => None
  | (P, v) :: rest =>
      match strip_prefix P s with
      | Some _ => Some (P, v)
      | None => first_match rest s
      end
  end.

Fixpoint render_go (subs : list (list N * list N)) (skip : nat) (s : list N)
    : list N :=
  match s with
  | [] => []
  | c :: s' =>
      match skip with
      | S k => render_go subs k s'
      | O =>
          match first_match subs s with
          | Some (P, v) => v ++ render_go subs (length P - 1) s'
          | None => c :: render_go subs O s'
          end
      end
  end.

Definition body_substitutions (data : InvalidationData) : list (list N * list N) :=
  [ (ph_urls, JSON.stringify_array (urls data));
    (ph_purgeAll, JSON.stringify_bool (purgeAll data));
    (ph_timestamp, timestamp data);
    (ph_pattern, JSON.stringify_string (pattern data)) ].

Definition render_single_pass (template : list N) (data : InvalidationData) : list N :=
  render_go (body_substitutions data) O template.

(** The code units of an ISO-8601 timestamp as [toISOString] prints it:
    digits, sign, colon, dot, [T] and [Z]. *)
Definition is_iso_unit (c : N) : bool :=
  ((48 <=? c) && (c <=? 57)) || (c =? 43) || (c =? 45) || (c =? 46) ||
  (c =? 58) || (c =? 84) || (c =? 90).

Definition iso_timestamp (s : list N) : bool :=
  match s with
  | [] => false
  | _ => forallb is_iso_unit s
  end.

(** The code units that give a dollar a meaning, in a replacement text or
    as the start of a placeholder. *)
Definition after_dollar_special (d : N) : bool :=
  (d =? 36) || (d =? 38) || (d =? 96) || (d =? 39) || (d =? 123).

(** No dollar of [s] is directly followed by one of them. *)
Fixpoint dollar_plain (s : list N) : bool :=
  match s with
  | [] => true
  | c :: r =>
      (if c =? dollar
       then match r with
            | d :: _ => negb (after_dollar_special d)
            | [] => true
            end
       else true) && dollar_plain r
  end.

(** *** Conditions under which the chained replacements and one pass agree *)

(** A placeholder: a dollar, an opening brace, then text without a dollar. *)
Definition placeholder_shape (P : list N) : bool :=
  match P with
  | c :: d :: Q =>
      (c =? dollar) && (d =? 123) && forallb (fun x => negb (x =? dollar)) Q
  | _ => false
  end.

(** One of the two texts is a prefix of the other. *)
Fixpoint comparable (a b : list N) : bool :=
  match a, b with
  | x :: a', y :: b' => (x =? y) && comparable a' b'
  | _, _ => true
  end.

(** Some non-empty end of [Q] can be continued by [v], or continues it. *)
Fixpoint joins (Q v : list N) : bool :=
  match Q with
  | [] => false
  | _ :: Q' => comparable Q v || joins Q' v
  end.

(** Every dollar of [v] is followed, inside [v], by something other than
    an opening brace. *)
Fixpoint dollar_closed (v : list N) : bool :=
  match v with
  | [] => true
  | c :: r =>
      (if c =? dollar
       then match r with
            | d :: _ => negb (d =? 123)
            | [] => false
            end
       else true) && dollar_closed r
  end.

(** The code unit after a dollar, which must be there, gives it no
    meaning. *)
Definition next_plain (s : list N) : bool :=
  match s with
  | d :: _ => negb (after_dollar_special d)
  | [] => false
  end.

(** [dollar_plain], and the text does not end with a dollar. *)
Fixpoint dollar_strict (s : list N) : bool :=
  match s with
  | [] => true
  | c :: r => (if c =? dollar then next_plain r else true) && dollar_strict r
  end.

(** An intent the templater renders as one pass would: the timestamp is an
    ISO-8601 timestamp, and in the urls and the pattern no dollar is
    directly followed by a dollar, an ampersand, a backquote, a quote or an
    opening brace. *)
Definition plain_intent (data : InvalidationData) : bool :=
  iso_timestamp (timestamp data)
  && forallb dollar_plain (urls data)
  && dollar_plain (pattern data).

(** ** A sample configuration, used to run the model *)

Definition example_webhook (count : Z) : WebhookConfig :=
  {| url := js "https://api.example.com/invalidate";
     method := js "POST";
     secret := Some (js "abc");
     headers := Some {[ js "Authorization" := js "Bearer ${secret}" ]};
     bodyTemplate := js "{urls: ${urls}, purgeAll: ${purgeAll}}";
     retryCount := count;
     retryDelay := 1000 |}.

Definition example_config_retry (count : Z) : MiddlewareConfig :=
  {| ghostPublicUrl := js "https://site";
     webhook := example_webhook count;
     debug := false |}.

Definition example_config : MiddlewareConfig := example_config_retry 3.

Definition example_now : list N := js "2024-01-01T00:00:00.000Z".

Definition example_data : InvalidationData :=
  parseInvalidationPattern example_config example_now (js "/, /rss").

Definition unavailable : Response :=
  {| status := 503; statusText := js "Service Unavailable"; text := inr (js "busy") |}.

Definition no_content : Response :=
  {| status := 204; statusText := js "No Content"; text := inr [] |}.

(** A network on which the first [failures] fetches fail, by a reset
    connection and by a 503 in turn, and every later one succeeds. *)
Definition flaky_network (failures : nat) (n : nat) : exn + Response :=
  if (n <? failures)%nat then
    if Nat.even n then inl (FetchError (js "ECONNRESET")) else inr unavailable
  else inr no_content.

Definition flaky_world (failures : nat) : World :=
  {| network := flaky_network failures; fetched := 0%nat; trace := [] |}.

(** An intent whose url holds the text of a placeholder: Ghost asked to
    purge the path [/${timestamp}]. *)
Definition nested_timestamp_data : InvalidationData :=
  parseInvalidationPattern example_config example_now (js "/${timestamp}").

(** The same with the path [/a${purgeAll}]. *)
Definition nested_purgeAll_data : InvalidationData :=
  parseInvalidationPattern example_config example_now (js "/a${purgeAll}").

(** The same with the path [/x${pattern}]. *)
Definition nested_pattern_data : InvalidationData :=
  parseInvalidationPattern example_config example_now (js "/x${pattern}").

(** The intent of a full purge, whose pattern holds a dollar. *)
Definition purge_all_data : InvalidationData :=
  parseInvalidationPattern example_config example_now (js "/$/").

(** ** The debug print of [sendWebhookRequest] *)

(** [body.replace(/'/g, "'\\''")] *)
Definition escape_single_quotes (body : list N) : list N :=
  replace_all [39] (js "'\''") body.

(** Whether the [--data] line is added:
    [body && webhook.method !== 'GET' && webhook.method !== 'HEAD']. *)
Definition prints_data (method body : list N) : bool :=
  match body with
  | [] => false
  | _ => negb (JsString.eqb method (js "GET")) && negb (JsString.eqb method (js "HEAD"))
  end.

(** The text [curlCommand] that debug mode prints.  [entries] is
    [Object.entries(headers)], the headers of the request in the order of
    the object's properties. *)
Definition curl_command (method url : list N)
    (entries : list (list N * list N)) (body : list N) : list N :=
  let curlCommand :=
    js "curl --request " ++ method ++ js " \" ++ 10 :: js "     --url '"
      ++ url ++ js "'" in
  let curlCommand :=
    fold_left (fun curlCommand '(key, value) =>
                 curlCommand ++ js " \" ++ 10 :: js "     --header '"
                   ++ key ++ js ": " ++ value ++ js "'")
              entries curlCommand in
  if prints_data method body
  then curlCommand ++ js " \" ++ 10 :: js "     --data '"
         ++ escape_single_quotes body ++ js "'"
  else curlCommand.

(** The body template of [example.env], [WEBHOOK_BODY_TEMPLATE]: an object
    with the members urls, timestamp and purgeAll. *)
Definition default_body_template : list N :=
  js "{" ++ dquote :: js "urls" ++ dquote :: js ": ${urls}, "
    ++ dquote :: js "timestamp" ++ dquote :: js ": "
    ++ dquote :: js "${timestamp}" ++ dquote :: js ", "
    ++ dquote :: js "purgeAll" ++ dquote :: js ": ${purgeAll}}".

(** ** Notions the further properties are stated with *)

(** The placeholder [P] occurs somewhere in [s]. *)
Fixpoint occurs (P s : list N) : bool :=
  match strip_prefix P s with
  | Some _ => true
  | None =>
      match s with
      | [] => false
      | _ :: r => occurs P r
      end
  end.

(** The pieces of a text with [sep] between them. *)
Fixpoint between (sep : list N) (pieces : list (list N)) : list N :=
  match pieces with
  | [] => []
  | [piece] => piece
  | piece :: rest => piece ++ sep ++ between sep rest
  end.

(** The value a POSIX shell gives to a word made of single-quoted text and
    backslash escapes: between single quotes every code unit is literal;
    outside them a backslash makes the next code unit literal, or joins
    lines when a newline follows.  Words of any other make are not read:
    [None]. *)
Fixpoint sh_word (quoted : bool) (s : list N) : option (list N) :=
  match s with
  | [] => if quoted then None else Some []
  | c :: r =>
      if quoted then
        if c =? 39 then sh_word false r
        else option_map (cons c) (sh_word true r)
      else if c =? 39 then sh_word true r
      else if c =? backslash then
        match r with
        | d :: r' =>
            if d =? 10 then sh_word false r'
            else option_map (cons d) (sh_word false r')
        | [] => None
        end
      else None
  end.

(** The calls of a timeline whose dispatch is not superseded: the next call
    comes when the quiescence window has elapsed, or there is no next
    call. *)
Fixpoint survivors (calls : list (Z * list N)) : list (list N) :=
  match calls with
  | [] => []
  | (t, p) :: rest =>
      match rest with
      | [] => [p]
      | (t', _) :: _ =>
          if (t + debounceTime <=? t')%Z then p :: survivors rest
          else survivors rest
      end
  end.

(** The calls come in the order of their times, and none arrives at the
    very millisecond the timer of the call before it is due. *)
Fixpoint timeline_from (t : Z) (calls : list (Z * list N)) : bool :=
  match calls with
  | [] => true
  | (t', _) :: rest =>
      (t <=? t')%Z && negb (t' =? t + debounceTime)%Z && timeline_from t' rest
  end.

(** Every call comes after the quiescence window of the call before it
    has elapsed. *)
Fixpoint spaced_from (t : Z) (calls : list (Z * list N)) : bool :=
  match calls with
  | [] => true
  | (t', _) :: rest => (t + debounceTime <? t')%Z && spaced_from t' rest
  end.

(** The calls come in the order of their times, nothing more. *)
Fixpoint in_order_from (t : Z) (calls : list (Z * list N)) : bool :=
  match calls with
  | [] => true
  | (t', _) :: rest => (t <=? t')%Z && in_order_from t' rest
  end.

Definition in_order (calls : list (Z * list N)) : bool :=
  match calls with
  | [] => true
  | (t, _) :: rest => in_order_from t rest
  end.

Definition timeline (calls : list (Z * list N)) : bool :=
  match calls with
  | [] => true
  | (t, _) :: rest => timeline_from t rest
  end.

(** * Properties *)

(** ** Strings *)

Section StringFacts.

Lemma eqb_eq (a b : list N) : JsString.eqb a b = true <-> a = b.
Proof.
  revert b; induction a as [|x a IH]; intros [|y b]; simpl; split;
    try congruence; try reflexivity.
  - intros H. apply andb_true_iff in H as [Hx Hab].
    apply N.eqb_eq in Hx. apply IH in Hab. congruence.
  - intros H. injection H as -> ->. rewrite N.eqb_refl. simpl.
    apply IH. reflexivity.
Qed.

Lemma eqb_neq (a b : list N) : JsString.eqb a b = false <-> a <> b.
Proof.
  rewrite <- eqb_eq. destruct (JsString.eqb a b); split; congruence.
Qed.

Lemma strip_prefix_app (p rest : list N) : strip_prefix p (p ++ rest) = Some rest.
Proof.
  induction p as [|x p IH]; simpl; [reflexivity|].
  rewrite N.eqb_refl. exact IH.
Qed.

Lemma strip_prefix_Some (p s rest : list N) :
  strip_prefix p s = Some rest -> s = p ++ rest.
Proof.
  revert s; induction p as [|x p IH]; intros s; simpl.
  - congruence.
  - destruct s as [|y s]; [discriminate|].
    destruct (N.eqb_spec x y) as [->|]; [|discriminate].
    intros H. apply IH in H. congruence.
Qed.

(** *** split and join *)

Lemma split_go_join (sep : N) (s : list N) :
  join sep (fst (split_go sep s) :: snd (split_go sep s)) = s.
Proof.
  induction s as [|c s IH]; [reflexivity|].
  simpl split_go. destruct (split_go sep s) as [f fs].
  destruct (N.eqb_spec c sep) as [->|Hne].
  - simpl in *. congruence.
  - simpl fst in *. simpl snd in *.
    destruct fs; simpl in *; congruence.
Qed.

Lemma join_split (sep : N) (s : list N) : join sep (split sep s) = s.
Proof.
  unfold split. pose proof (split_go_join sep s) as H.
  destruct (split_go sep s). exact H.
Qed.

Lemma split_app_sep (sep : N) (f s : list N) :
  ~ In sep f -> split sep (f ++ sep :: s) = f :: split sep s.
Proof.
  unfold split. induction f as [|c f IH]; intros Hf.
  - simpl. rewrite N.eqb_refl. destruct (split_go sep s). reflexivity.
  - simpl. simpl in Hf.
    destruct (N.eqb_spec c sep) as [->|Hne]; [tauto|].
    assert (Hf' : ~ In sep f) by tauto.
    specialize (IH Hf').
    destruct (split_go sep (f ++ sep :: s)) as [g gs].
    destruct (split_go sep s) as [h hs]. congruence.
Qed.

Lemma split_no_sep (sep : N) (f : list N) : ~ In sep f -> split sep f = [f].
Proof.
  unfold split. induction f as [|c f IH]; intros Hf; [reflexivity|].
  simpl. simpl in Hf.
  destruct (N.eqb_spec c sep) as [->|Hne]; [tauto|].
  assert (Hf' : ~ In sep f) by tauto. specialize (IH Hf').
  destruct (split_go sep f). congruence.
Qed.

(** Splitting undoes joining when no fragment holds the separator. *)
Lemma split_join (sep : N) (frags : list (list N)) :
  frags <> [] ->
  Forall (fun f => ~ In sep f) frags ->
  split sep (join sep frags) = frags.
Proof.
  induction frags as [|f rest IH]; intros Hne Hall; [congruence|].
  inversion Hall as [|? ? Hf Hrest]; subst.
  destruct rest as [|g rest].
  - simpl. apply split_no_sep; assumption.
  - change (join sep (f :: g :: rest)) with (f ++ sep :: join sep (g :: rest)).
    rewrite split_app_sep by assumption.
    rewrite IH; [reflexivity | discriminate | assumption].
Qed.

Lemma length_split (sep : N) (s : list N) :
  length (split sep s) = S (count_occ N.eq_dec s sep).
Proof.
  unfold split. induction s as [|c s IH]; [reflexivity|].
  simpl split_go. destruct (split_go sep s) as [f fs].
  simpl count_occ.
  destruct (N.eqb_spec c sep) as [->|Hne].
  - destruct (N.eq_dec sep sep); [|congruence]. simpl in *. congruence.
  - destruct (N.eq_dec c sep); [congruence|]. exact IH.
Qed.

Lemma no_sep_in_split (sep : N) (s : list N) :
  Forall (fun f => ~ In sep f) (split sep s).
Proof.
  unfold split. induction s as [|c s IH].
  - simpl. constructor; [tauto | constructor].
  - simpl split_go. destruct (split_go sep s) as [f fs].
    inversion IH as [|? ? Hf Hfs]; subst.
    destruct (N.eqb_spec c sep) as [->|Hne].
    + constructor; [simpl; tauto|]. constructor; assumption.
    + constructor; [|assumption]. simpl. intros [?|?]; [congruence | tauto].
Qed.

(** *** trim *)

Lemma trimStart_spec (s : list N) :
  exists l, s = l ++ trimStart s /\ forallb is_js_space l = true /\
            (forall c r, trimStart s = c :: r -> is_js_space c = false).
Proof.
  induction s as [|c s (l & Hs & Hl & Hhd)].
  - exists []. repeat split. discriminate.
  - simpl. destruct (is_js_space c) eqn:Hc.
    + exists (c :: l). simpl. rewrite Hc, Hl. repeat split; [congruence | exact Hhd].
    + exists []. repeat split. intros ? ? [= <- _]. exact Hc.
Qed.

(** [trim] removes a run of white space at either end and nothing else,
    and what is left neither starts nor ends with white space. *)
Lemma trim_spec (s : list N) :
  exists l r,
    s = l ++ trim s ++ r /\
    forallb is_js_space l = true /\ forallb is_js_space r = true /\
    (forall c t, trim s = c :: t -> is_js_space c = false) /\
    (forall c t, trim s = t ++ [c] -> is_js_space c = false).
Proof.
  unfold trim, trimEnd.
  destruct (trimStart_spec s) as (l & Hs & Hl & Hhd).
  destruct (trimStart_spec (rev (trimStart s))) as (r & Hr & Hrs & Hlast).
  set (m := trimStart (rev (trimStart s))) in *.
  assert (Hmid : trimStart s = rev m ++ rev r).
  { rewrite <- rev_app_distr, <- Hr, rev_involutive. reflexivity. }
  exists l, (rev r). repeat split.
  - rewrite <- Hmid. exact Hs.
  - exact Hl.
  - rewrite forallb_forall in *. intros x Hx. apply Hrs.
    apply in_rev. exact Hx.
  - intros c t Hct. destruct m as [|x m] using rev_ind.
    + discriminate.
    + clear IHm. rewrite Hmid in Hhd. rewrite Hct in Hhd.
      eapply Hhd. simpl. reflexivity.
  - intros c t Hct. apply (f_equal (@rev N)) in Hct.
    rewrite rev_involutive, rev_app_distr in Hct. simpl in Hct.
    eapply Hlast. exact Hct.
Qed.

End StringFacts.

(** ** Pattern interpreter *)

Section Interpreter.

Variable config : MiddlewareConfig.
Variable now : list N.

(** C4: for the sentinel [/$/] and for the sentinel [/*] the intent has
    [purgeAll = true] and [urls] is the one-element list holding the
    public base URL followed by [/*]. *)
Theorem parse_sentinel_purges_all (p : list N) :
  p = js "/$/" \/ p = js "/*" ->
  purgeAll (parseInvalidationPattern config now p) = true /\
  urls (parseInvalidationPattern config now p) = [ghostPublicUrl config ++ js "/*"].
Proof.
  intros [-> | ->]; split; reflexivity.
Qed.

Lemma parse_not_sentinel (p : list N) :
  p <> js "/$/" -> p <> js "/*" ->
  JsString.eqb p (js "/$/") || JsString.eqb p (js "/*") = false.
Proof.
  intros H1 H2. apply eqb_neq in H1, H2. rewrite H1, H2. reflexivity.
Qed.

(** C5: a pattern that is no sentinel and is made of the k fragments
    [frags] separated by commas yields [purgeAll = false] and exactly k
    urls, the i-th being the base URL followed by the i-th fragment
    trimmed: order kept, duplicates kept.  k is one more than the number
    of commas. *)
Theorem parse_fragments (p : list N) (frags : list (list N)) :
  p <> js "/$/" -> p <> js "/*" ->
  frags <> [] ->
  Forall (fun f => ~ In comma f) frags ->
  p = join comma frags ->
  let data := parseInvalidationPattern config now p in
  purgeAll data = false /\
  length (urls data) = length frags /\
  length frags = S (count_occ N.eq_dec p comma) /\
  urls data = List.map (fun f => ghostPublicUrl config ++ trim f) frags /\
  (forall i f, nth_error frags i = Some f ->
               nth_error (urls data) i = Some (ghostPublicUrl config ++ trim f)).
Proof.
  intros H1 H2 Hne Hall Hp data.
  assert (Hsplit : split comma p = frags).
  { rewrite Hp. apply split_join; assumption. }
  assert (Hurls : urls data
                  = List.map (fun f => ghostPublicUrl config ++ trim f) frags).
  { unfold data, parseInvalidationPattern. simpl.
    rewrite parse_not_sentinel by assumption. rewrite Hsplit. reflexivity. }
  split; [|split; [|split; [|split]]].
  - unfold data, parseInvalidationPattern. simpl.
    apply parse_not_sentinel; assumption.
  - rewrite Hurls. apply length_map.
  - rewrite <- Hsplit. apply length_split.
  - exact Hurls.
  - intros i f Hi. rewrite Hurls. rewrite nth_error_map, Hi. reflexivity.
Qed.

(** C9: the interpreter is a total function, it yields an intent with at
    least one url for every pattern, and for the empty pattern the intent
    has [purgeAll = false] and the bare base URL as its only url. *)
Theorem parse_total_and_empty :
  (forall p, exists data,
      parseInvalidationPattern config now p = data /\
      pattern data = p /\ timestamp data = now /\ urls data <> []) /\
  purgeAll (parseInvalidationPattern config now []) = false /\
  urls (parseInvalidationPattern config now []) = [ghostPublicUrl config].
Proof.
  split; [|split].
  - intros p. eexists. split; [reflexivity|].
    repeat split. unfold parseInvalidationPattern. simpl.
    destruct (JsString.eqb p (js "/$/") || JsString.eqb p (js "/*")).
    + discriminate.
    + unfold split. destruct (split_go comma p). discriminate.
  - reflexivity.
  - unfold parseInvalidationPattern. simpl. rewrite app_nil_r. reflexivity.
Qed.

End Interpreter.

Lemma parse_sentinel_purges_all_witness :
  purgeAll (parseInvalidationPattern example_config example_now (js "/$/")) = true /\
  urls (parseInvalidationPattern example_config example_now (js "/$/"))
  = [js "https://site/*"].
Proof.
  apply (parse_sentinel_purges_all example_config example_now (js "/$/")).
  left. reflexivity.
Defined.

Lemma parse_fragments_witness :
  urls (parseInvalidationPattern example_config example_now (js "/, /page/* ,/rss,/"))
  = [js "https://site/"; js "https://site/page/*"; js "https://site/rss";
     js "https://site/"].
Proof.
  apply (parse_fragments example_config example_now (js "/, /page/* ,/rss,/")
           [js "/"; js " /page/* "; js "/rss"; js "/"]).
  - vm_compute. discriminate.
  - vm_compute. discriminate.
  - discriminate.
  - repeat constructor; vm_compute; intuition discriminate.
  - reflexivity.
Defined.

(** ** Delivery engine *)

Section DeliveryFacts.

Variable config : MiddlewareConfig.
Variable request : Request.

Let count : Z := retryCount (webhook config).
Let delay : Z := retryDelay (webhook config).

Lemma advance_world_0 (w : World) : advance_world w 0 [] = w.
Proof.
  destruct w as [net n tr]. unfold advance_world. simpl.
  rewrite Nat.add_0_r, app_nil_r. reflexivity.
Qed.

Lemma advance_world_twice (w : World) (n m : nat) (a b : list Event) :
  advance_world (advance_world w n a) m b = advance_world w (n + m) (a ++ b).
Proof.
  unfold advance_world. simpl. rewrite Nat.add_assoc, app_assoc. reflexivity.
Qed.

Lemma fetch_step (w : World) :
  fetch request w = (network w (fetched w), advance_world w 1 [EvFetch request]).
Proof.
  unfold fetch, advance_world. rewrite Nat.add_1_r. reflexivity.
Qed.

(** *** One turn of the loop *)

Lemma attempt_once_success (attempt : Z) (w : World) :
  attempt_failure (network w (fetched w)) = None ->
  attempt_once config request attempt w
  = (inr Returned, advance_world w 1 [EvFetch request]).
Proof.
  intros H. unfold attempt_once, try_catch, bind. rewrite fetch_step.
  destruct (network w (fetched w)) as [e|r]; simpl in H; [discriminate|].
  destruct (ok r); [reflexivity|].
  destruct (text r); discriminate.
Qed.

Lemma attempt_once_throws (attempt : Z) (w : World) (e : exn) :
  attempt_failure (network w (fetched w)) = Some e ->
  attempt_once config request attempt w
  = (if (attempt =? count)%Z then throw e
     else sleep delay ;;; ret Continue) (advance_world w 1 [EvFetch request]).
Proof.
  intros H. unfold attempt_once, try_catch, bind at 1. rewrite fetch_step.
  destruct (network w (fetched w)) as [e'|r]; simpl in H.
  - injection H as ->. reflexivity.
  - destruct (ok r); [discriminate|]. simpl.
    unfold bind at 1, response_text.
    destruct (text r); injection H as <-; reflexivity.
Qed.

Lemma attempt_once_last_failure (w : World) (e : exn) :
  attempt_failure (network w (fetched w)) = Some e ->
  attempt_once config request count w
  = (inl e, advance_world w 1 [EvFetch request]).
Proof.
  intros H. rewrite (attempt_once_throws _ _ e H), Z.eqb_refl. reflexivity.
Qed.

Lemma attempt_once_retry (attempt : Z) (w : World) (e : exn) :
  attempt_failure (network w (fetched w)) = Some e ->
  attempt <> count ->
  attempt_once config request attempt w
  = (inr Continue, advance_world w 1 [EvFetch request; EvSleep delay]).
Proof.
  intros H Hne. rewrite (attempt_once_throws _ _ e H).
  destruct (Z.eqb_spec attempt count); [contradiction|].
  unfold bind, sleep, ret, advance_world. simpl.
  rewrite <- app_assoc. reflexivity.
Qed.

(** *** The loop *)

(** The measure is exact: it reaches zero only when the loop condition
    is false. *)
Lemma retry_loop_measure (attempt : Z) :
  Z.to_nat (count + 1 - attempt) = 0%nat -> (attempt <=? count)%Z = false.
Proof. intros H. apply Z.leb_gt. lia. Qed.

(** Turns beyond the measure are never taken. *)
Lemma retry_loop_fuel (n : nat) :
  forall (attempt : Z) (extra : nat) (w : World),
    n = Z.to_nat (count + 1 - attempt) ->
    retry_loop config request (n + extra) attempt w
    = retry_loop config request n attempt w.
Proof.
  induction n as [|n IH]; intros attempt extra w Hn.
  - destruct extra as [|extra]; [reflexivity|].
    simpl. fold count.
    destruct (Z.leb_spec attempt count); [lia | reflexivity].
  - simpl. fold count.
    destruct (attempt <=? count)%Z; [|reflexivity].
    unfold bind.
    destruct (attempt_once config request attempt w) as [[e|[|]] w'];
      try reflexivity.
    apply IH. lia.
Qed.

Lemma failed_turns_S (n : nat) :
  failed_turns request delay (S n)
  = [EvFetch request; EvSleep delay] ++ failed_turns request delay n.
Proof. reflexivity. Qed.

(** [j] failing attempts, none of them the last one, take the loop [j]
    turns further. *)
Lemma retry_loop_failures (j : nat) :
  forall (rest : nat) (attempt : Z) (w : World),
    (attempt + Z.of_nat j <= count)%Z ->
    (forall i, (i < j)%nat ->
               attempt_failure (network w (fetched w + i)%nat) <> None) ->
    retry_loop config request (j + rest) attempt w
    = retry_loop config request rest (attempt + Z.of_nat j)
        (advance_world w j (failed_turns request delay j)).
Proof.
  induction j as [|j IH]; intros rest attempt w Hle Hfail.
  - simpl. rewrite Z.add_0_r, advance_world_0. reflexivity.
  - change (S j + rest)%nat with (S (j + rest)). simpl retry_loop.
    fold count.
    destruct (Z.leb_spec attempt count) as [_|Hgt]; [|lia].
    destruct (attempt_failure (network w (fetched w))) as [e|] eqn:He.
    2:{ exfalso. apply (Hfail 0%nat); [lia|]. rewrite Nat.add_0_r. exact He. }
    unfold bind at 1.
    rewrite (attempt_once_retry attempt w e He) by lia.
    rewrite IH.
    + rewrite advance_world_twice, <- failed_turns_S.
      f_equal. lia.
    + lia.
    + intros i Hi. simpl. rewrite <- Nat.add_assoc. apply Hfail. lia.
Qed.

Lemma fetch_count_failed_turns (n : nat) :
  fetch_count (failed_turns request delay n ++ [EvFetch request]) = S n.
Proof.
  unfold fetch_count. induction n as [|n IH]; [reflexivity|].
  rewrite failed_turns_S. simpl. rewrite IH. reflexivity.
Qed.

Lemma sleeps_failed_turns (n : nat) :
  sleeps (failed_turns request delay n ++ [EvFetch request]) = repeat delay n.
Proof.
  induction n as [|n IH]; [reflexivity|].
  rewrite failed_turns_S. simpl. rewrite IH. reflexivity.
Qed.

(** Failure of the first [k - 1] attempts and success of attempt [k]. *)
Lemma retry_loop_succeeds_at (k : nat) (w : World) :
  (1 <= k)%nat -> (Z.of_nat k <= count)%Z ->
  (forall i, (i < k - 1)%nat ->
             attempt_failure (network w (fetched w + i)%nat) <> None) ->
  attempt_failure (network w (fetched w + (k - 1))%nat) = None ->
  retry_loop config request (Z.to_nat count) 1 w
  = (inr tt,
     advance_world w k (failed_turns request delay (k - 1) ++ [EvFetch request])).
Proof.
  intros Hk Hle Hfail Hok.
  replace (Z.to_nat count) with ((k - 1) + S (Z.to_nat count - k))%nat by lia.
  rewrite retry_loop_failures; [|lia|exact Hfail].
  simpl retry_loop. fold count.
  destruct (Z.leb_spec (1 + Z.of_nat (k - 1)) count) as [_|Hgt]; [|lia].
  unfold bind.
  rewrite attempt_once_success by exact Hok.
  rewrite advance_world_twice. unfold ret. do 2 f_equal. lia.
Qed.

(** Failure of all [count] attempts. *)
Lemma retry_loop_exhausted (w : World) (e : exn) :
  (1 <= count)%Z ->
  (forall i, (i < Z.to_nat count)%nat ->
             attempt_failure (network w (fetched w + i)%nat) <> None) ->
  attempt_failure (network w (fetched w + (Z.to_nat count - 1))%nat) = Some e ->
  retry_loop config request (Z.to_nat count) 1 w
  = (inl e,
     advance_world w (Z.to_nat count)
       (failed_turns request delay (Z.to_nat count - 1) ++ [EvFetch request])).
Proof.
  intros Hle Hfail Hlast.
  replace (Z.to_nat count) with ((Z.to_nat count - 1) + 1)%nat at 1 by lia.
  rewrite retry_loop_failures; [|lia|intros i Hi; apply Hfail; lia].
  simpl retry_loop. fold count.
  destruct (Z.leb_spec (1 + Z.of_nat (Z.to_nat count - 1)) count) as [_|Hgt]; [|lia].
  replace (1 + Z.of_nat (Z.to_nat count - 1))%Z with count by lia.
  unfold bind.
  rewrite (attempt_once_last_failure _ e) by exact Hlast.
  rewrite advance_world_twice. do 2 f_equal. lia.
Qed.

End DeliveryFacts.

Section Deliver.

Variable config : MiddlewareConfig.
Variable data : InvalidationData.

Let request : Request := webhook_request config data.
Let count : Z := retryCount (webhook config).
Let delay : Z := retryDelay (webhook config).

(** C2: with a retry count of at least [k], when the attempts before the
    k-th fail and the k-th succeeds, delivery returns normally after
    exactly [k] fetches and [k - 1] sleeps, each of the configured retry
    delay; the successful fetch is the last event. *)
Theorem deliver_succeeds_at_attempt (k : nat) (w : World) :
  (1 <= k)%nat -> (Z.of_nat k <= count)%Z ->
  (forall i, (i < k - 1)%nat ->
             attempt_failure (network w (fetched w + i)%nat) <> None) ->
  attempt_failure (network w (fetched w + (k - 1))%nat) = None ->
  exists evs,
    sendWebhookRequest config data w = (inr tt, advance_world w k evs) /\
    evs = failed_turns request delay (k - 1) ++ [EvFetch request] /\
    fetch_count evs = k /\
    sleeps evs = repeat delay (k - 1).
Proof.
  intros Hk Hle Hfail Hok.
  exists (failed_turns request delay (k - 1) ++ [EvFetch request]).
  unfold request, delay, count in *.
  split; [|split; [reflexivity|split]].
  - unfold sendWebhookRequest.
    apply retry_loop_succeeds_at; assumption.
  - rewrite fetch_count_failed_turns. lia.
  - apply sleeps_failed_turns.
Qed.

(** C3: with a retry count [N] of at least 1, when all [N] attempts fail,
    delivery throws, and what it throws is the failure of the N-th
    attempt: the error made of that response's status and body text, or
    the transport error of that attempt.  It has made [N] fetches. *)
Theorem deliver_exhausted (w : World) :
  (1 <= count)%Z ->
  (forall i, (i < Z.to_nat count)%nat ->
             attempt_failure (network w (fetched w + i)%nat) <> None) ->
  let last := network w (fetched w + (Z.to_nat count - 1))%nat in
  exists e evs,
    sendWebhookRequest config data w
    = (inl e, advance_world w (Z.to_nat count) evs) /\
    attempt_failure last = Some e /\
    (forall r errorText,
        last = inr r -> text r = inr errorText ->
        e = Error (js "HTTP error " ++ of_Z (status r) ++ js ": " ++ errorText)) /\
    (forall e', last = inl e' -> e = e') /\
    fetch_count evs = Z.to_nat count /\
    sleeps evs = repeat delay (Z.to_nat count - 1).
Proof.
  intros Hle Hfail last.
  destruct (attempt_failure last) as [e|] eqn:He.
  2:{ exfalso. apply (Hfail (Z.to_nat count - 1)%nat); [lia | exact He]. }
  exists e, (failed_turns request delay (Z.to_nat count - 1) ++ [EvFetch request]).
  unfold request, delay, count in *.
  split; [|split; [|split; [|split; [|split]]]].
  - unfold sendWebhookRequest. apply retry_loop_exhausted; assumption.
  - reflexivity.
  - intros r errorText Hr Ht. rewrite Hr in He. simpl in He.
    destruct (ok r); [discriminate|]. rewrite Ht in He.
    injection He as <-. reflexivity.
  - intros e' Hl. rewrite Hl in He. simpl in He. congruence.
  - rewrite fetch_count_failed_turns. lia.
  - apply sleeps_failed_turns.
Qed.

(** C10: with a retry count of zero or less the loop body never runs:
    delivery returns normally and leaves the world as it was, no fetch
    made and nothing thrown. *)
Theorem deliver_without_attempts (w : World) :
  (count <= 0)%Z ->
  sendWebhookRequest config data w = (inr tt, w).
Proof.
  intros Hle. unfold sendWebhookRequest. unfold count in Hle.
  replace (Z.to_nat (retryCount (webhook config))) with 0%nat by lia.
  reflexivity.
Qed.

End Deliver.

(** Retry count 3, attempts 1 and 2 fail, attempt 3 succeeds: success
    after 3 fetches and 2 delays. *)
Lemma deliver_succeeds_at_attempt_witness :
  exists evs,
    sendWebhookRequest example_config example_data (flaky_world 2)
    = (inr tt, advance_world (flaky_world 2) 3 evs) /\
    evs = failed_turns (webhook_request example_config example_data) 1000 2
            ++ [EvFetch (webhook_request example_config example_data)] /\
    fetch_count evs = 3%nat /\
    sleeps evs = [1000; 1000]%Z.
Proof.
  apply (deliver_succeeds_at_attempt example_config example_data 3 (flaky_world 2)).
  - lia.
  - simpl. lia.
  - intros i Hi. destruct i as [|[|i]]; [discriminate | discriminate | lia].
  - reflexivity.
Defined.

(** Retry count 2, both attempts fail: the error of attempt 2 is thrown. *)
Lemma deliver_exhausted_witness :
  fst (sendWebhookRequest (example_config_retry 2) example_data (flaky_world 5))
  = inl (Error (js "HTTP error 503: busy")).
Proof.
  destruct (deliver_exhausted (example_config_retry 2) example_data (flaky_world 5))
    as (e & evs & Hrun & He & _).
  - simpl. lia.
  - intros i Hi. simpl in Hi.
    destruct i as [|[|i]]; [discriminate | discriminate | lia].
  - rewrite Hrun. simpl in He. injection He as <-. reflexivity.
Defined.

Lemma deliver_without_attempts_witness :
  sendWebhookRequest (example_config_retry 0) example_data (flaky_world 0)
  = (inr tt, flaky_world 0).
Proof.
  apply (deliver_without_attempts (example_config_retry 0) example_data (flaky_world 0)).
  simpl. lia.
Defined.

(** What a fired timer starts never throws into the event loop. *)
Lemma timer_callback_never_throws (config : MiddlewareConfig)
    (now pattern : list N) (w : World) :
  fst (timer_callback config now pattern w) = inr tt.
Proof.
  unfold timer_callback, try_catch.
  destruct (triggerWebhook config now pattern w) as [[e|[]] w']; reflexivity.
Qed.

(** ** Debounce gate *)

Section Debounce.

Lemma single_timer_length (l : Loop) :
  single_timer l -> (length (timers l) <= 1)%nat.
Proof.
  intros [-> | (tm & -> & _)]; simpl; lia.
Qed.

Lemma single_timer_run_timers (t : Z) (l : Loop) :
  single_timer l -> single_timer (run_timers t l).
Proof.
  intros [H | (tm & H & Hh)]; unfold single_timer, run_timers; simpl; rewrite H; simpl.
  - left. reflexivity.
  - destruct (is_due t tm); simpl; [left; reflexivity|].
    right. exists tm. split; [reflexivity | exact Hh].
Qed.

(** After a call exactly the new timer is pending, whatever was pending
    before has been cleared. *)
Lemma debounce_replaces (p : list N) (l : Loop) :
  single_timer l ->
  debouncePurgeCache p l
  = {| clock := clock l;
       timers := [{| timer_id := next_timer l;
                     due := (clock l + debounceTime)%Z;
                     callback_pattern := p |}];
       next_timer := S (next_timer l);
       cachePurgeTimeout := Some (next_timer l);
       dispatched := dispatched l |}.
Proof.
  intros [H | (tm & H & Hh)]; unfold debouncePurgeCache.
  - destruct (cachePurgeTimeout l); unfold setTimeout, clearTimeout; simpl;
      rewrite H; reflexivity.
  - rewrite Hh. unfold setTimeout, clearTimeout. simpl. rewrite H. simpl.
    rewrite Nat.eqb_refl. reflexivity.
Qed.

Lemma single_timer_debounce (p : list N) (l : Loop) :
  single_timer l -> single_timer (debouncePurgeCache p l).
Proof.
  intros H. rewrite debounce_replaces by exact H.
  right. eexists. split; reflexivity.
Qed.

Lemma single_timer_run (calls : list (Z * list N)) :
  forall l, single_timer l -> single_timer (run calls l).
Proof.
  unfold run. induction calls as [|c calls IH]; intros l H; [exact H|].
  simpl. apply IH. unfold arrive.
  apply single_timer_debounce, single_timer_run_timers, H.
Qed.

Lemma waiting_single_timer done t p l : waiting done t p l -> single_timer l.
Proof.
  intros (_ & _ & h & Ht & Hc). right. eexists. split; [exact Ht | exact Hc].
Qed.

Lemma arrive_idle done (t : Z) (p : list N) (l : Loop) :
  timers l = [] -> dispatched l = done -> (clock l <= t)%Z ->
  waiting done t p (arrive l (t, p)).
Proof.
  intros Ht Hd Hc. unfold arrive. simpl.
  rewrite debounce_replaces.
  2:{ apply single_timer_run_timers. left. exact Ht. }
  unfold waiting, run_timers. simpl. rewrite Ht. simpl.
  rewrite Z.max_r by exact Hc. rewrite app_nil_r.
  split; [reflexivity|]. split; [exact Hd|].
  eexists. split; reflexivity.
Qed.

Lemma arrive_in_window done (t t' : Z) (p p' : list N) (l : Loop) :
  waiting done t p l -> (t <= t')%Z -> (t' < t + debounceTime)%Z ->
  waiting done t' p' (arrive l (t', p')).
Proof.
  intros Hw Hle Hlt. pose proof (waiting_single_timer _ _ _ _ Hw) as Hs.
  destruct Hw as (Hc & Hd & h & Ht & Hh).
  unfold arrive. simpl.
  rewrite debounce_replaces by (apply single_timer_run_timers, Hs).
  unfold waiting, run_timers. simpl. rewrite Ht. simpl.
  unfold is_due. simpl.
  destruct (Z.leb_spec (t + debounceTime) t') as [Hdue|_]; [lia|].
  simpl. rewrite app_nil_r, Hc, Z.max_r by exact Hle.
  split; [reflexivity|]. split; [exact Hd|].
  eexists. split; reflexivity.
Qed.

Lemma last_cons {A} (a d : A) (l : list A) :
  List.last (a :: l) d = List.last l a.
Proof.
  revert a d. induction l as [|b l IH]; intros a d; [reflexivity|].
  change (List.last (a :: b :: l) d) with (List.last (b :: l) d).
  rewrite (IH b d), (IH b a). reflexivity.
Qed.


Lemma waiting_fires done (t : Z) (p : list N) (l : Loop) (t' : Z) :
  waiting done t p l ->
  ((t' < t + debounceTime)%Z ->
     dispatched (run_timers t' l) = done /\
     length (timers (run_timers t' l)) = 1%nat) /\
  ((t + debounceTime <= t')%Z ->
     dispatched (run_timers t' l) = done ++ [p] /\
     timers (run_timers t' l) = []).
Proof.
  intros (Hc & Hd & h & Ht & Hh). unfold run_timers. simpl.
  rewrite Ht, Hd. simpl. unfold is_due. simpl.
  split; intros Ht'.
  - destruct (Z.leb_spec (t + debounceTime) t'); [lia|].
    simpl. rewrite app_nil_r. split; reflexivity.
  - destruct (Z.leb_spec (t + debounceTime) t'); [|lia].
    simpl. split; reflexivity.
Qed.


End Debounce.


(** ** Templater: one global replacement *)

Section Replace.

Lemma GetSubstitution_plain (matched before after r : list N) :
  dollar_plain r = true -> GetSubstitution matched before after r = r.
Proof.
  induction r as [|c r IH]; intros H; [reflexivity|].
  simpl in H. apply andb_true_iff in H as [Hc Hr].
  simpl. destruct (c =? dollar) eqn:Ec.
  - destruct r as [|d r']; [reflexivity|].
    unfold after_dollar_special in Hc.
    apply negb_true_iff in Hc. repeat (apply orb_false_iff in Hc as [Hc ?]).
    rewrite Hc. replace (d =? 38) with false by congruence.
    replace (d =? 96) with false by congruence.
    replace (d =? 39) with false by congruence.
    rewrite IH by exact Hr. reflexivity.
  - rewrite IH by exact Hr. reflexivity.
Qed.

(** With a replacement text free of dollar patterns, a global replacement
    is a pass of the one-pass renderer with a single substitution. *)
Lemma replace_go_render (P v : list N) :
  dollar_plain v = true ->
  forall s skip before,
    replace_go P v skip before s = render_go [(P, v)] skip s.
Proof.
  intros Hv. induction s as [|c s IH]; intros skip before; [reflexivity|].
  simpl. destruct skip as [|k]; [|apply IH].
  destruct (strip_prefix P (c :: s)) as [after|].
  - rewrite GetSubstitution_plain by exact Hv. rewrite IH. reflexivity.
  - rewrite IH. reflexivity.
Qed.

Lemma replace_all_render (P v s : list N) :
  dollar_plain v = true -> replace_all P v s = render_go [(P, v)] O s.
Proof. intros Hv. apply replace_go_render. exact Hv. Qed.

End Replace.

(** ** Templater: the one-pass renderer *)

(** From [E : s = P ++ rest] with [P] not empty, [rest] is shorter than
    [s]. *)
Ltac shorter_by E :=
  let H := fresh "Hlength" in
  pose proof (f_equal (@length N) E) as H;
  rewrite length_app in H;
  match type of E with
  | _ = ?P ++ _ => destruct P; [congruence|]
  end;
  simpl in *; lia.

Section Render.

Lemma render_go_skip (subs : list (list N * list N)) (a rest : list N) :
  render_go subs (length a) (a ++ rest) = render_go subs O rest.
Proof.
  induction a as [|c a IH]; [reflexivity | exact IH].
Qed.

Lemma first_match_Some (subs : list (list N * list N)) (s P v : list N) :
  first_match subs s = Some (P, v) ->
  In (P, v) subs /\ exists rest, s = P ++ rest.
Proof.
  induction subs as [|[P' v'] subs IH]; simpl; [discriminate|].
  destruct (strip_prefix P' s) as [rest|] eqn:E.
  - intros [= <- <-]. split; [left; reflexivity|].
    exists rest. apply strip_prefix_Some. exact E.
  - intros H. apply IH in H as [Hin Hrest]. split; [right; exact Hin | exact Hrest].
Qed.

Lemma first_match_None (subs : list (list N * list N)) (s : list N) :
  (forall P v, In (P, v) subs -> strip_prefix P s = None) ->
  first_match subs s = None.
Proof.
  induction subs as [|[P v] subs IH]; intros H; [reflexivity|].
  simpl. rewrite (H P v) by (left; reflexivity).
  apply IH. intros P' v' Hin. apply (H P' v'). right. exact Hin.
Qed.

(** Which substitution applies depends only on which placeholders match. *)
Lemma first_match_ext (subs : list (list N * list N)) (x y : list N) :
  (forall P v, In (P, v) subs ->
               (strip_prefix P x = None <-> strip_prefix P y = None)) ->
  first_match subs x = first_match subs y.
Proof.
  induction subs as [|[P v] subs IH]; intros H; [reflexivity|].
  simpl. pose proof (H P v (or_introl eq_refl)) as HP.
  destruct (strip_prefix P x) as [rx|], (strip_prefix P y) as [ry|].
  - reflexivity.
  - destruct HP as [_ HP]. discriminate (HP eq_refl).
  - destruct HP as [HP _]. discriminate (HP eq_refl).
  - apply IH. intros P' v' Hin. apply (H P' v'). right. exact Hin.
Qed.

Lemma render_go_match (subs : list (list N * list N)) (s P v : list N) :
  first_match subs s = Some (P, v) -> P <> [] ->
  exists rest, s = P ++ rest /\
               render_go subs O s = v ++ render_go subs O rest.
Proof.
  intros Hm HP. destruct (first_match_Some _ _ _ _ Hm) as [_ [rest Hs]].
  exists rest. split; [exact Hs|].
  destruct P as [|p P']; [congruence|].
  destruct s as [|c s']; [discriminate|].
  simpl render_go. rewrite Hm.
  injection Hs as -> ->.
  match goal with
  | |- context [render_go subs ?n (P' ++ rest)] =>
      replace n with (length P') by (simpl; lia)
  end.
  rewrite render_go_skip. reflexivity.
Qed.

Lemma render_go_nomatch (subs : list (list N * list N)) (c : N) (s : list N) :
  first_match subs (c :: s) = None ->
  render_go subs O (c :: s) = c :: render_go subs O s.
Proof. intros H. simpl. rewrite H. reflexivity. Qed.

(** *** Placeholders *)

Lemma placeholder_shape_inv (P : list N) :
  placeholder_shape P = true ->
  exists Q, P = dollar :: 123 :: Q /\
            forallb (fun x => negb (x =? dollar)) Q = true.
Proof.
  destruct P as [|c [|d Q]]; try discriminate. simpl.
  intros H. apply andb_true_iff in H as [H HQ].
  apply andb_true_iff in H as [Hc Hd].
  apply N.eqb_eq in Hc, Hd. subst. exists Q. split; [reflexivity | exact HQ].
Qed.

Lemma placeholder_nonempty (P : list N) : placeholder_shape P = true -> P <> [].
Proof. destruct P; [discriminate | discriminate]. Qed.

Lemma no_match_at_other (P : list N) (c : N) (s : list N) :
  placeholder_shape P = true -> c <> dollar -> strip_prefix P (c :: s) = None.
Proof.
  intros HP Hc. destruct (placeholder_shape_inv P HP) as (Q & -> & _).
  cbn [strip_prefix]. destruct (N.eqb_spec dollar c); [congruence | reflexivity].
Qed.

Lemma no_match_at_dollar (P : list N) (s : list N) :
  placeholder_shape P = true ->
  match s with d :: _ => d <> 123 | [] => True end ->
  strip_prefix P (dollar :: s) = None.
Proof.
  intros HP Hs. destruct (placeholder_shape_inv P HP) as (Q & -> & _).
  cbn [strip_prefix]. rewrite N.eqb_refl.
  destruct s as [|d s]; [reflexivity|].
  destruct (N.eqb_spec 123 d); [congruence | reflexivity].
Qed.

Lemma comparable_false (P s X : list N) :
  comparable P s = false -> strip_prefix P (s ++ X) = None.
Proof.
  revert s. induction P as [|x P IH]; intros [|y s] H; try discriminate.
  simpl in *. destruct (N.eqb_spec x y) as [->|]; [|reflexivity].
  apply IH. exact H.
Qed.

Lemma no_match_in_plain_text (P Q rest : list N) :
  placeholder_shape P = true ->
  forallb (fun x => negb (x =? dollar)) Q = true ->
  forall v, render_go [(P, v)] O (Q ++ rest) = Q ++ render_go [(P, v)] O rest.
Proof.
  intros HP HQ v. induction Q as [|q Q IH]; [reflexivity|].
  simpl in HQ. apply andb_true_iff in HQ as [Hq HQ].
  apply negb_true_iff, N.eqb_neq in Hq.
  change ((q :: Q) ++ rest) with (q :: (Q ++ rest)).
  rewrite render_go_nomatch.
  - rewrite IH by exact HQ. reflexivity.
  - simpl. rewrite no_match_at_other by assumption. reflexivity.
Qed.

(** A pass for [P] steps over another placeholder untouched. *)
Lemma pass_over_placeholder (P v P' rest : list N) :
  placeholder_shape P = true -> placeholder_shape P' = true ->
  comparable P P' = false ->
  render_go [(P, v)] O (P' ++ rest) = P' ++ render_go [(P, v)] O rest.
Proof.
  intros HP HP' Hc.
  destruct (placeholder_shape_inv P' HP') as (Q & -> & HQ).
  change ((dollar :: 123 :: Q) ++ rest) with (dollar :: (123 :: Q) ++ rest).
  rewrite render_go_nomatch.
  - rewrite no_match_in_plain_text; [reflexivity | exact HP |].
    simpl. exact HQ.
  - cbn [first_match].
    change (dollar :: (123 :: Q) ++ rest) with ((dollar :: 123 :: Q) ++ rest).
    rewrite comparable_false by exact Hc. reflexivity.
Qed.

(** The text of a value in which every dollar is closed off is passed
    over by every placeholder. *)
Lemma render_go_closed (subs : list (list N * list N)) (v X : list N) :
  (forall P w, In (P, w) subs -> placeholder_shape P = true) ->
  dollar_closed v = true ->
  render_go subs O (v ++ X) = v ++ render_go subs O X.
Proof.
  intros Hsubs. induction v as [|c v IH]; intros Hv; [reflexivity|].
  simpl in Hv. apply andb_true_iff in Hv as [Hc Hv].
  change ((c :: v) ++ X) with (c :: (v ++ X)).
  rewrite render_go_nomatch.
  - rewrite IH by exact Hv. reflexivity.
  - apply first_match_None. intros P w Hin.
    destruct (N.eqb_spec c dollar) as [->|Hne].
    + apply no_match_at_dollar; [eapply Hsubs; exact Hin|].
      destruct v as [|d v]; [discriminate|].
      simpl. apply negb_true_iff, N.eqb_neq in Hc. exact Hc.
    + apply no_match_at_other; [eapply Hsubs; exact Hin | exact Hne].
Qed.

(** A value that joins with no end of [Q] cannot complete [Q]. *)
Lemma no_join_tail (P v : list N) (Q : list N) :
  joins Q v = false ->
  P <> [] ->
  forall s, strip_prefix Q (render_go [(P, v)] O s) <> None ->
            strip_prefix Q s <> None.
Proof.
  intros HJ HP. induction Q as [|q Q IH]; intros s H; [discriminate|].
  simpl in HJ. apply orb_false_iff in HJ as [Hcmp HJ].
  destruct s as [|d s]; [exact H|].
  destruct (first_match [(P, v)] (d :: s)) as [[P' v']|] eqn:Hm.
  - exfalso. apply H.
    assert (HPv : In (P', v') [(P, v)]) by (eapply first_match_Some; exact Hm).
    destruct HPv as [[= <- <-]|[]].
    destruct (render_go_match _ _ _ _ Hm HP) as (rest & _ & ->).
    apply comparable_false. exact Hcmp.
  - rewrite render_go_nomatch in H by exact Hm.
    simpl in *. destruct (q =? d); [|exact H].
    apply IH; assumption.
Qed.

Lemma no_join (P v P' : list N) (c : N) (s : list N) :
  placeholder_shape P = true -> placeholder_shape P' = true ->
  joins (tl P') v = false ->
  strip_prefix P' (c :: render_go [(P, v)] O s) <> None ->
  strip_prefix P' (c :: s) <> None.
Proof.
  intros HP HP' HJ H.
  destruct (placeholder_shape_inv P' HP') as (Q & -> & HQ).
  simpl tl in HJ.
  change (strip_prefix (dollar :: 123 :: Q) (c :: s))
    with (if dollar =? c then strip_prefix (123 :: Q) s else None).
  change (strip_prefix (dollar :: 123 :: Q) (c :: render_go [(P, v)] O s))
    with (if dollar =? c then strip_prefix (123 :: Q) (render_go [(P, v)] O s)
          else None) in H.
  destruct (dollar =? c); [|exact H].
  eapply no_join_tail; [exact HJ | apply placeholder_nonempty; exact HP | exact H].
Qed.

End Render.

(** ** Templater: chained passes against one pass *)

Section Fusion.

Variables (P v : list N) (subs : list (list N * list N)).

Hypothesis P_shape : placeholder_shape P = true.
Hypothesis v_closed : dollar_closed v = true.
Hypothesis subs_apart :
  forall P' w, In (P', w) subs ->
    placeholder_shape P' = true /\ comparable P P' = false /\
    joins (tl P') v = false.

Lemma fuse_first_match (c : N) (s : list N) :
  strip_prefix P (c :: s) = None ->
  first_match subs (c :: render_go [(P, v)] O s) = first_match subs (c :: s).
Proof.
  intros EP. apply first_match_ext. intros P' w Hin.
  destruct (subs_apart P' w Hin) as (HP' & Hcmp & HJ).
  split; intros H.
  - destruct (strip_prefix P' (c :: s)) as [rest|] eqn:E; [|reflexivity].
    exfalso. apply strip_prefix_Some in E.
    assert (Hs : render_go [(P, v)] O (c :: s) = c :: render_go [(P, v)] O s).
    { apply render_go_nomatch. simpl. rewrite EP. reflexivity. }
    rewrite E, pass_over_placeholder in Hs by assumption.
    rewrite <- Hs, strip_prefix_app in H. discriminate.
  - destruct (strip_prefix P' (c :: render_go [(P, v)] O s)) eqn:E; [|reflexivity].
    exfalso. apply (no_join P v P' c s); try assumption.
    rewrite E. discriminate.
Qed.

Lemma fuse_pass_bounded (n : nat) :
  forall s, (length s <= n)%nat ->
    render_go subs O (render_go [(P, v)] O s) = render_go ((P, v) :: subs) O s.
Proof.
  induction n as [|n IH]; intros s Hlen.
  - destruct s; [reflexivity | simpl in Hlen; lia].
  - destruct s as [|c s]; [reflexivity|].
    destruct (strip_prefix P (c :: s)) as [rest|] eqn:EP.
    + assert (H1 : first_match [(P, v)] (c :: s) = Some (P, v))
        by (simpl; rewrite EP; reflexivity).
      assert (H2 : first_match ((P, v) :: subs) (c :: s) = Some (P, v))
        by (simpl; rewrite EP; reflexivity).
      apply strip_prefix_Some in EP.
      pose proof (placeholder_nonempty P P_shape) as HP.
      destruct (render_go_match _ _ _ _ H1 HP) as (r1 & E1 & ->).
      destruct (render_go_match _ _ _ _ H2 HP) as (r2 & E2 & ->).
      rewrite EP in E1, E2. apply app_inv_head in E1, E2. subst r1 r2.
      rewrite render_go_closed.
      * rewrite IH; [reflexivity|].
        shorter_by EP.
      * intros P' w Hin. apply (subs_apart P' w Hin).
      * exact v_closed.
    + assert (H1 : render_go [(P, v)] O (c :: s) = c :: render_go [(P, v)] O s).
      { apply render_go_nomatch. simpl. rewrite EP. reflexivity. }
      assert (H2 : first_match ((P, v) :: subs) (c :: s) = first_match subs (c :: s))
        by (simpl; rewrite EP; reflexivity).
      pose proof (fuse_first_match c s EP) as H3.
      rewrite H1.
      destruct (first_match subs (c :: s)) as [[P' w]|] eqn:Em.
      * destruct (first_match_Some _ _ _ _ Em) as [Hin _].
        destruct (subs_apart P' w Hin) as (HP' & Hcmp & HJ).
        pose proof (placeholder_nonempty P' HP') as Hne.
        destruct (render_go_match _ _ _ _ H2 Hne) as (r2 & E2 & ->).
        destruct (render_go_match _ _ _ _ H3 Hne) as (r3 & E3 & ->).
        rewrite <- H1, E2, pass_over_placeholder in E3 by assumption.
        apply app_inv_head in E3. subst r3.
        rewrite IH; [reflexivity|].
        shorter_by E2.
      * rewrite render_go_nomatch by exact H3.
        rewrite render_go_nomatch by (rewrite H2; reflexivity).
        rewrite IH; [reflexivity|]. simpl in Hlen. lia.
Qed.

(** A pass for [P] followed by a pass for the placeholders of [subs] is one
    pass for all of them. *)
Lemma fuse_pass (s : list N) :
  render_go subs O (render_go [(P, v)] O s) = render_go ((P, v) :: subs) O s.
Proof. apply (fuse_pass_bounded (length s)). lia. Qed.

End Fusion.

(** ** JSON texts and the dollar *)

Section JsonDollar.

Lemma dollar_strict_plain (v : list N) :
  dollar_strict v = true -> dollar_plain v = true.
Proof.
  induction v as [|c v IH]; [reflexivity|]. simpl.
  intros H. apply andb_true_iff in H as [Hc Hv].
  rewrite IH by exact Hv. rewrite andb_true_r.
  destruct (c =? dollar); [|reflexivity].
  destruct v; [discriminate | exact Hc].
Qed.

Lemma dollar_strict_closed (v : list N) :
  dollar_strict v = true -> dollar_closed v = true.
Proof.
  induction v as [|c v IH]; [reflexivity|]. simpl.
  intros H. apply andb_true_iff in H as [Hc Hv].
  rewrite IH by exact Hv. rewrite andb_true_r.
  destruct (c =? dollar); [|reflexivity].
  destruct v as [|d v]; [discriminate|]. simpl in Hc.
  unfold after_dollar_special in Hc.
  apply negb_true_iff in Hc. apply orb_false_iff in Hc as [_ Hc].
  rewrite Hc. reflexivity.
Qed.

Lemma dollar_strict_app (a b : list N) :
  dollar_strict a = true -> dollar_strict b = true ->
  dollar_strict (a ++ b) = true.
Proof.
  induction a as [|c a IH]; intros Ha Hb; [exact Hb|].
  simpl in *. apply andb_true_iff in Ha as [Hc Ha].
  rewrite IH by assumption. rewrite andb_true_r.
  destruct (c =? dollar); [|reflexivity].
  destruct a; [discriminate | exact Hc].
Qed.

Lemma dollar_strict_no_dollar (a : list N) :
  forallb (fun x => negb (x =? dollar)) a = true -> dollar_strict a = true.
Proof.
  induction a as [|c a IH]; [reflexivity|]. simpl.
  intros H. apply andb_true_iff in H as [Hc Ha].
  apply negb_true_iff in Hc. rewrite Hc, IH by exact Ha. reflexivity.
Qed.

Lemma hex_digit_not_dollar (n : N) : negb (JSON.hex_digit n =? dollar) = true.
Proof.
  apply negb_true_iff, N.eqb_neq. unfold JSON.hex_digit, dollar.
  destruct (n <? 10); lia.
Qed.

(** A code unit is copied, or escaped into a backslash and dollar-free
    text. *)
Lemma quote_unit_cases (c : N) :
  JSON.quote_unit c = [c] \/
  exists e, JSON.quote_unit c = backslash :: e /\
            forallb (fun x => negb (x =? dollar)) e = true.
Proof.
  unfold JSON.quote_unit.
  repeat match goal with
         | |- context [if ?b then _ else _] =>
             destruct b; [right; eexists; split; [reflexivity|] |]
         end;
    try reflexivity.
  - cbn [forallb]. rewrite !hex_digit_not_dollar. reflexivity.
  - left. reflexivity.
Qed.

Lemma surrogate_not_special (c : N) :
  JSON.is_high_surrogate c || JSON.is_low_surrogate c = true ->
  (c =? dollar) = false /\ after_dollar_special c = false.
Proof.
  unfold JSON.is_high_surrogate, JSON.is_low_surrogate, after_dollar_special, dollar.
  intros H.
  assert (Hc : 55296 <= c).
  { apply orb_true_iff in H as [H|H]; apply andb_true_iff in H as [H _];
      apply N.leb_le in H; lia. }
  split; [apply N.eqb_neq; lia|].
  repeat (apply orb_false_iff; split); apply N.eqb_neq; lia.
Qed.

Lemma dollar_strict_escape (e Z : list N) :
  forallb (fun x => negb (x =? dollar)) e = true ->
  dollar_strict Z = true ->
  dollar_strict ((backslash :: e) ++ Z) = true.
Proof.
  intros He HZ. apply dollar_strict_app; [|exact HZ].
  apply dollar_strict_no_dollar. simpl. exact He.
Qed.

(** Quoting keeps a plain text plain: behind every dollar of the output
    stands the code unit that stood behind it in the input, a backslash, or
    what follows the quoted text. *)
Lemma quote_body_strict_bounded (n : nat) :
  forall s Y,
    (length s <= n)%nat ->
    dollar_plain s = true ->
    dollar_strict Y = true -> next_plain Y = true ->
    dollar_strict (JSON.quote_body s ++ Y) = true /\
    (match s with d :: _ => negb (after_dollar_special d) | [] => true end = true ->
     next_plain (JSON.quote_body s ++ Y) = true).
Proof.
  induction n as [|n IH]; intros s Y Hlen Hs HY HnY.
  - destruct s; [|simpl in Hlen; lia]. simpl. split; [exact HY | intros _; exact HnY].
  - destruct s as [|c r]; [simpl; split; [exact HY | intros _; exact HnY]|].
    simpl in Hlen. simpl in Hs. apply andb_true_iff in Hs as [Hc Hr].
    assert (Hunit : forall Z,
               dollar_strict Z = true ->
               ((c =? dollar) = true -> next_plain Z = true) ->
               dollar_strict (JSON.quote_unit c ++ Z) = true /\
               (negb (after_dollar_special c) = true ->
                next_plain (JSON.quote_unit c ++ Z) = true)).
    { intros Z HZ HnZ. destruct (quote_unit_cases c) as [-> | (e & -> & He)].
      - simpl. rewrite HZ, andb_true_r. split.
        + destruct (c =? dollar); [apply HnZ; reflexivity | reflexivity].
        + intros H. exact H.
      - split; [apply dollar_strict_escape; assumption|]. intros _. reflexivity. }
    assert (Hrest : dollar_strict (JSON.quote_body r ++ Y) = true /\
                    ((c =? dollar) = true ->
                     next_plain (JSON.quote_body r ++ Y) = true)).
    { destruct (IH r Y ltac:(lia) Hr HY HnY) as [H1 H2]. split; [exact H1|].
      intros E. rewrite E in Hc. apply H2. destruct r; [reflexivity | exact Hc]. }
    cbn [JSON.quote_body].
    destruct (JSON.is_high_surrogate c) eqn:Ehigh.
    + destruct r as [|d r'].
      * apply Hunit; [exact HY|]. intros _. exact HnY.
      * destruct (JSON.is_low_surrogate d) eqn:Elow.
        -- destruct (surrogate_not_special c) as [Ec Esc];
             [rewrite Ehigh; reflexivity|].
           destruct (surrogate_not_special d) as [Ed Esd];
             [rewrite Elow; apply orb_true_r|].
           simpl in Hr. apply andb_true_iff in Hr as [_ Hr'].
           destruct (IH r' Y ltac:(simpl in Hlen; lia) Hr' HY HnY) as [H1 _].
           change ((c :: d :: JSON.quote_body r') ++ Y)
             with (c :: d :: (JSON.quote_body r' ++ Y)).
           cbn [dollar_strict next_plain]. rewrite Ec, Ed, Esc, H1. split; reflexivity.
        -- rewrite <- app_assoc. apply Hunit; apply Hrest.
    + rewrite <- app_assoc. apply Hunit; apply Hrest.
Qed.

Lemma stringify_string_strict (s : list N) :
  dollar_plain s = true -> dollar_strict (JSON.stringify_string s) = true.
Proof.
  intros Hs. unfold JSON.stringify_string.
  destruct (quote_body_strict_bounded (length s) s [dquote]
              (le_n _) Hs eq_refl eq_refl) as [H _].
  change (dollar_strict (dquote :: JSON.quote_body s ++ [dquote]))
    with (dollar_strict (JSON.quote_body s ++ [dquote])).
  exact H.
Qed.

Lemma stringify_array_strict (l : list (list N)) :
  forallb dollar_plain l = true -> dollar_strict (JSON.stringify_array l) = true.
Proof.
  intros Hl. unfold JSON.stringify_array.
  change (dollar_strict (91 :: join comma (List.map JSON.stringify_string l) ++ [93]))
    with (dollar_strict (join comma (List.map JSON.stringify_string l) ++ [93])).
  apply dollar_strict_app; [|reflexivity].
  induction l as [|s l IH]; [reflexivity|].
  simpl in Hl. apply andb_true_iff in Hl as [Hs Hl].
  specialize (IH Hl). pose proof (stringify_string_strict s Hs) as Hq.
  destruct l as [|s' l]; [exact Hq|].
  change (join comma (List.map JSON.stringify_string (s :: s' :: l)))
    with (JSON.stringify_string s
            ++ [comma] ++ join comma (List.map JSON.stringify_string (s' :: l))).
  apply dollar_strict_app; [exact Hq|].
  apply dollar_strict_app; [reflexivity | exact IH].
Qed.

(** *** The timestamp *)

Lemma iso_unit_plain (c : N) :
  is_iso_unit c = true ->
  JSON.quote_unit c = [c] /\ JSON.is_high_surrogate c = false /\
  (c =? dollar) = false.
Proof.
  unfold is_iso_unit. intros H.
  assert (Hc : 43 <= c <= 90 /\ c <> 92).
  { repeat (apply orb_true_iff in H as [H|H]);
      try (apply andb_true_iff in H as [H1 H2]; apply N.leb_le in H1, H2; lia);
      apply N.eqb_eq in H; lia. }
  unfold JSON.quote_unit, JSON.is_high_surrogate, JSON.is_low_surrogate,
    dquote, backslash, dollar.
  repeat match goal with
         | |- context [?a =? ?b] =>
             destruct (N.eqb_spec a b); [lia|]
         | |- context [?a <? ?b] =>
             destruct (N.ltb_spec a b); [lia|]
         | |- context [?a <=? ?b] =>
             destruct (N.leb_spec a b); try lia
         end; simpl; repeat split; try reflexivity.
Qed.

Lemma quote_body_iso (s : list N) :
  forallb is_iso_unit s = true -> JSON.quote_body s = s.
Proof.
  induction s as [|c s IH]; [reflexivity|]. simpl.
  intros H. apply andb_true_iff in H as [Hc Hs].
  destruct (iso_unit_plain c Hc) as (-> & -> & _).
  rewrite IH by exact Hs. reflexivity.
Qed.

Lemma strip_outer_quotes_quoted (b : list N) :
  strip_outer_quotes (dquote :: b ++ [dquote]) = b.
Proof.
  unfold strip_outer_quotes, drop_last_quote.
  rewrite N.eqb_refl, rev_app_distr. simpl.
  apply rev_involutive.
Qed.

(** The text put in for the timestamp is the timestamp itself. *)
Lemma val_timestamp_iso (data : InvalidationData) :
  iso_timestamp (timestamp data) = true -> val_timestamp data = timestamp data.
Proof.
  intros H. unfold val_timestamp, JSON.stringify_string.
  rewrite strip_outer_quotes_quoted. apply quote_body_iso.
  unfold iso_timestamp in H. destruct (timestamp data); [discriminate | exact H].
Qed.

Lemma iso_no_dollar (s : list N) :
  forallb is_iso_unit s = true ->
  forallb (fun x => negb (x =? dollar)) s = true.
Proof.
  induction s as [|c s IH]; [reflexivity|]. simpl.
  intros H. apply andb_true_iff in H as [Hc Hs].
  destruct (iso_unit_plain c Hc) as (_ & _ & ->). simpl. apply IH, Hs.
Qed.

End JsonDollar.

(** ** Templater: the body *)

Section Body.

Lemma joins_head (Q v : list N) (c : N) :
  forallb (fun q => negb (q =? c)) Q = true ->
  joins Q (c :: v) = false.
Proof.
  induction Q as [|q Q IH]; [reflexivity|]. simpl.
  intros H. apply andb_true_iff in H as [Hq HQ].
  apply negb_true_iff in Hq. rewrite Hq. simpl. apply IH, HQ.
Qed.

Lemma iso_unit_below_letters (c : N) : is_iso_unit c = true -> c <= 90.
Proof.
  unfold is_iso_unit. intros H.
  repeat (apply orb_true_iff in H as [H|H]);
    try (apply andb_true_iff in H as [H1 H2]; apply N.leb_le in H1, H2; lia);
    apply N.eqb_eq in H; lia.
Qed.

Variable data : InvalidationData.
Hypothesis data_plain : plain_intent data = true.

Lemma plain_intent_inv :
  iso_timestamp (timestamp data) = true /\
  forallb dollar_plain (urls data) = true /\
  dollar_plain (pattern data) = true.
Proof.
  unfold plain_intent in data_plain.
  apply andb_true_iff in data_plain as [H Hp].
  apply andb_true_iff in H as [Ht Hu]. auto.
Qed.

Lemma val_urls_strict : dollar_strict (val_urls data) = true.
Proof. apply stringify_array_strict, plain_intent_inv. Qed.

Lemma val_purgeAll_strict : dollar_strict (val_purgeAll data) = true.
Proof. unfold val_purgeAll. destruct (purgeAll data); reflexivity. Qed.

Lemma val_pattern_strict : dollar_strict (val_pattern data) = true.
Proof. apply stringify_string_strict, plain_intent_inv. Qed.

Lemma timestamp_strict : dollar_strict (timestamp data) = true.
Proof.
  apply dollar_strict_no_dollar, iso_no_dollar.
  destruct plain_intent_inv as (H & _). unfold iso_timestamp in H.
  destruct (timestamp data); [discriminate | exact H].
Qed.

Lemma timestamp_joins_nothing : joins (tl ph_pattern) (timestamp data) = false.
Proof.
  destruct plain_intent_inv as (H & _). unfold iso_timestamp in H.
  destruct (timestamp data) as [|c ts]; [discriminate|].
  simpl in H. apply andb_true_iff in H as [Hc _].
  apply iso_unit_below_letters in Hc.
  apply joins_head. cbn.
  repeat (apply andb_true_iff; split); try reflexivity;
    apply negb_true_iff, N.eqb_neq; lia.
Qed.

(** On a plain intent the four chained replacements are one pass. *)
Lemma processTemplate_one_pass (template : list N) :
  processTemplate template data = render_single_pass template data.
Proof.
  unfold processTemplate, render_single_pass, body_substitutions.
  rewrite !replace_all_render;
    [| apply dollar_strict_plain, val_urls_strict
     | apply dollar_strict_plain, val_purgeAll_strict
     | rewrite val_timestamp_iso by apply plain_intent_inv;
       apply dollar_strict_plain, timestamp_strict
     | apply dollar_strict_plain, val_pattern_strict ].
  rewrite val_timestamp_iso by apply plain_intent_inv.
  rewrite (fuse_pass ph_timestamp (timestamp data)).
  2: reflexivity.
  2: apply dollar_strict_closed, timestamp_strict.
  2:{ intros P' w [[= <- <-]|[]]. repeat split. apply timestamp_joins_nothing. }
  rewrite (fuse_pass ph_purgeAll (val_purgeAll data)).
  2: reflexivity.
  2: apply dollar_strict_closed, val_purgeAll_strict.
  2:{ intros P' w [[= <- <-]|[[= <- <-]|[]]]; repeat split;
        unfold val_purgeAll; destruct (purgeAll data); reflexivity. }
  rewrite (fuse_pass ph_urls (val_urls data)).
  2: reflexivity.
  2: apply dollar_strict_closed, val_urls_strict.
  2:{ intros P' w [[= <- <-]|[[= <- <-]|[[= <- <-]|[]]]]; repeat split;
        apply joins_head; reflexivity. }
  reflexivity.
Qed.

End Body.

(** ** Templater: what the body is *)

Section BodyShape.

Lemma strip_prefix_plain_app (T a b : list N) :
  forallb (fun x => negb (x =? dollar)) T = true ->
  match b with [] => True | c :: _ => c = dollar end ->
  (strip_prefix T (a ++ b) = None <-> strip_prefix T a = None).
Proof.
  intros HT Hb. revert a. induction T as [|t T IH]; intros a.
  - simpl. split; discriminate.
  - simpl in HT. apply andb_true_iff in HT as [Ht HT].
    apply negb_true_iff in Ht.
    destruct a as [|x a].
    + simpl. destruct b as [|c b]; [tauto|]. subst c. rewrite Ht. tauto.
    + simpl. destruct (t =? x); [apply IH; exact HT | tauto].
Qed.

(** A placeholder cannot reach across a dollar. *)
Lemma strip_prefix_app_dollar (P a b : list N) (c : N) :
  placeholder_shape P = true ->
  match b with [] => True | d :: _ => d = dollar end ->
  (strip_prefix P ((c :: a) ++ b) = None <-> strip_prefix P (c :: a) = None).
Proof.
  intros HP Hb. destruct (placeholder_shape_inv P HP) as (Q & -> & HQ).
  change (strip_prefix (dollar :: 123 :: Q) ((c :: a) ++ b))
    with (if dollar =? c then strip_prefix (123 :: Q) (a ++ b) else None).
  change (strip_prefix (dollar :: 123 :: Q) (c :: a))
    with (if dollar =? c then strip_prefix (123 :: Q) a else None).
  destruct (dollar =? c); [|tauto].
  apply strip_prefix_plain_app; [exact HQ | exact Hb].
Qed.

Lemma render_go_app_bounded (subs : list (list N * list N)) (b : list N) (n : nat) :
  (forall P w, In (P, w) subs -> placeholder_shape P = true) ->
  match b with [] => True | d :: _ => d = dollar end ->
  forall a, (length a <= n)%nat ->
    render_go subs O (a ++ b) = render_go subs O a ++ render_go subs O b.
Proof.
  intros Hsubs Hb. induction n as [|n IH]; intros a Hlen.
  - destruct a; [reflexivity | simpl in Hlen; lia].
  - destruct a as [|c a]; [reflexivity|].
    assert (Hfm : first_match subs ((c :: a) ++ b) = first_match subs (c :: a)).
    { apply first_match_ext. intros P w Hin.
      apply strip_prefix_app_dollar; [eapply Hsubs; exact Hin | exact Hb]. }
    destruct (first_match subs (c :: a)) as [[P w]|] eqn:Em.
    + destruct (first_match_Some _ _ _ _ Em) as [Hin _].
      pose proof (placeholder_nonempty P (Hsubs P w Hin)) as Hne.
      destruct (render_go_match _ _ _ _ Hfm Hne) as (r1 & E1 & ->).
      destruct (render_go_match _ _ _ _ Em Hne) as (r2 & E2 & ->).
      rewrite E2, <- app_assoc in E1. apply app_inv_head in E1. subst r1.
      rewrite IH; [rewrite app_assoc; reflexivity|].
      shorter_by E2.
    + change ((c :: a) ++ b) with (c :: (a ++ b)) in *.
      rewrite !render_go_nomatch by assumption.
      rewrite IH; [reflexivity|]. simpl in Hlen. lia.
Qed.

Lemma body_substitutions_shape (data : InvalidationData) (P w : list N) :
  In (P, w) (body_substitutions data) -> placeholder_shape P = true.
Proof.
  intros [[= <- <-]|[[= <- <-]|[[= <- <-]|[[= <- <-]|[]]]]]; reflexivity.
Qed.

Lemma body_substitutions_match (data : InvalidationData) (P v rest : list N) :
  In (P, v) (body_substitutions data) ->
  first_match (body_substitutions data) (P ++ rest) = Some (P, v).
Proof.
  intros [[= <- <-]|[[= <- <-]|[[= <- <-]|[[= <- <-]|[]]]]]; reflexivity.
Qed.

Lemma render_placeholder (data : InvalidationData) (P v rest : list N) :
  In (P, v) (body_substitutions data) ->
  render_single_pass (P ++ rest) data = v ++ render_single_pass rest data.
Proof.
  intros Hin. unfold render_single_pass.
  destruct (render_go_match _ _ _ _ (body_substitutions_match data P v rest Hin))
    as (r & E & ->).
  - apply placeholder_nonempty. eapply body_substitutions_shape. exact Hin.
  - apply app_inv_head in E. subst r. reflexivity.
Qed.

Lemma render_split (data : InvalidationData) (P v pre post : list N) :
  In (P, v) (body_substitutions data) ->
  render_single_pass (pre ++ P ++ post) data
  = render_single_pass pre data ++ v ++ render_single_pass post data.
Proof.
  intros Hin. rewrite <- (render_placeholder data P v post Hin).
  unfold render_single_pass.
  apply (render_go_app_bounded _ _ (length pre)).
  - intros P' w. apply body_substitutions_shape.
  - destruct (placeholder_shape_inv P (body_substitutions_shape data P v Hin))
      as (Q & -> & _). reflexivity.
  - lia.
Qed.

(** A template without a dollar is its own rendering, whatever the intent. *)
Lemma replace_all_no_dollar (P v s : list N) :
  placeholder_shape P = true ->
  forallb (fun x => negb (x =? dollar)) s = true ->
  replace_all P v s = s.
Proof.
  intros HP. unfold replace_all. generalize (@nil N) as before.
  induction s as [|c s IH]; intros before Hs; [reflexivity|].
  simpl in Hs. apply andb_true_iff in Hs as [Hc Hs].
  apply negb_true_iff, N.eqb_neq in Hc.
  cbn [replace_go]. rewrite no_match_at_other by assumption.
  rewrite IH by exact Hs. reflexivity.
Qed.

Lemma processTemplate_no_dollar (template : list N) (data : InvalidationData) :
  forallb (fun x => negb (x =? dollar)) template = true ->
  processTemplate template data = template.
Proof.
  intros H. unfold processTemplate.
  rewrite (replace_all_no_dollar ph_urls) by (reflexivity || assumption).
  rewrite (replace_all_no_dollar ph_purgeAll) by (reflexivity || assumption).
  rewrite (replace_all_no_dollar ph_timestamp) by (reflexivity || assumption).
  apply replace_all_no_dollar; [reflexivity | assumption].
Qed.

End BodyShape.

(** Where the four replacements do what one pass does: on an intent with
    an ISO-8601 timestamp in whose urls and pattern no dollar is directly
    followed by a dollar, an ampersand, a backquote, a quote or an opening
    brace (a condition that is enough, not the widest), body rendering is
    the one pass
    over the template that replaces every occurrence of [${urls}] by the
    JSON array of the urls, of [${purgeAll}] by the JSON boolean, of
    [${timestamp}] by the bare timestamp and of [${pattern}] by the JSON
    string of the pattern, and copies every other code unit; a template
    without placeholders is left as it is. *)
Theorem body_rendering (data : InvalidationData) :
  plain_intent data = true ->
  (forall template,
      processTemplate template data = render_single_pass template data) /\
  processTemplate [] data = [] /\
  (forall P v rest,
      In (P, v) (body_substitutions data) ->
      processTemplate (P ++ rest) data = v ++ processTemplate rest data) /\
  (forall c rest,
      first_match (body_substitutions data) (c :: rest) = None ->
      processTemplate (c :: rest) data = c :: processTemplate rest data).
Proof.
  intros Hd. split; [|split; [|split]].
  - intros template. apply processTemplate_one_pass. exact Hd.
  - reflexivity.
  - intros P v rest Hin. rewrite !processTemplate_one_pass by exact Hd.
    apply render_placeholder. exact Hin.
  - intros c rest Hm. rewrite !processTemplate_one_pass by exact Hd.
    unfold render_single_pass. apply render_go_nomatch. exact Hm.
Qed.

(** On such an intent the text put in for a placeholder
    stands in the output as it is, between the renderings of what precedes
    and of what follows the placeholder: no later replacement touches it
    or reaches across it. *)
Theorem value_stands_unchanged (data : InvalidationData)
    (P v pre post : list N) :
  plain_intent data = true ->
  In (P, v) (body_substitutions data) ->
  processTemplate (pre ++ P ++ post) data
  = processTemplate pre data ++ v ++ processTemplate post data.
Proof.
  intros Hd Hin. rewrite !processTemplate_one_pass by exact Hd.
  apply render_split. exact Hin.
Qed.

Lemma body_rendering_witness :
  processTemplate (js "{p: ${pattern}, all: ${purgeAll}, u: ${urls}}") purge_all_data
  = js "{p: " ++ dquote :: js "/$/" ++ dquote :: js ", all: true, u: ["
      ++ dquote :: js "https://site/*" ++ dquote :: js "]}".
Proof.
  destruct (body_rendering purge_all_data) as [H _]; [reflexivity|].
  rewrite H. reflexivity.
Defined.

Lemma value_stands_unchanged_witness :
  processTemplate (js "{p: " ++ ph_pattern ++ js ", t: ${timestamp}}") purge_all_data
  = js "{p: " ++ (dquote :: js "/$/" ++ [dquote])
      ++ js ", t: 2024-01-01T00:00:00.000Z}".
Proof.
  rewrite (value_stands_unchanged purge_all_data ph_pattern
             (JSON.stringify_string (js "/$/"))).
  - reflexivity.
  - reflexivity.
  - simpl. tauto.
Defined.

(** C6, where the code departs from it: [${urls}] is not replaced by the
    JSON array of the urls when a url holds the text [${timestamp}], the
    pass for the timestamp, which runs after the pass for the urls,
    rewrites the url; and with the shipped template the pattern
    [/x${pattern}] gives a body that is no JSON text, the pass for the
    pattern putting a quoted string inside the quoted url. *)
Theorem body_placeholder_not_its_value :
  processTemplate ph_urls nested_timestamp_data
  = js "[" ++ dquote :: js "https://site/2024-01-01T00:00:00.000Z" ++ dquote :: js "]"
  /\ processTemplate ph_urls nested_timestamp_data
     <> JSON.stringify_array (urls nested_timestamp_data)
  /\ processTemplate default_body_template nested_pattern_data
     = js "{" ++ dquote :: js "urls" ++ dquote :: js ": ["
         ++ dquote :: js "https://site/x" ++ dquote :: js "/x${pattern}"
         ++ dquote :: dquote :: js "], "
         ++ dquote :: js "timestamp" ++ dquote :: js ": "
         ++ dquote :: js "2024-01-01T00:00:00.000Z" ++ dquote :: js ", "
         ++ dquote :: js "purgeAll" ++ dquote :: js ": false}".
Proof.
  split; [reflexivity|]. split; [vm_compute; discriminate|].
  vm_compute. reflexivity.
Qed.

(** C7, where the code departs from it: the text put in for [${urls}] is
    scanned again, the [${purgeAll}] inside the url is replaced by the pass
    for purgeAll, so the url [https://site/a${purgeAll}] is sent as
    [https://site/afalse]; one pass would have left it as it is. *)
Theorem inserted_value_rescanned :
  processTemplate ([] ++ ph_urls ++ []) nested_purgeAll_data
  = js "[" ++ dquote :: js "https://site/afalse" ++ dquote :: js "]"
  /\ processTemplate ([] ++ ph_urls ++ []) nested_purgeAll_data
     <> processTemplate [] nested_purgeAll_data
          ++ JSON.stringify_array (urls nested_purgeAll_data)
          ++ processTemplate [] nested_purgeAll_data
  /\ render_single_pass ph_urls nested_purgeAll_data
     = JSON.stringify_array (urls nested_purgeAll_data).
Proof.
  split; [reflexivity|]. split; [vm_compute; discriminate | reflexivity].
Qed.

(** The same reading of dollars by [replace] shows in the body: the
    pattern [/a$$b] is put in with one dollar. *)
Example body_pattern_read_as_replacement :
  processTemplate ph_pattern
    (parseInvalidationPattern example_config example_now (js "/a$$b"))
  = dquote :: js "/a$b" ++ [dquote].
Proof. reflexivity. Qed.

(** ** Templater: the headers *)

Section Headers.

Variable secret : option (list N).

Let render (value : list N) : list N :=
  replace_all ph_secret (secret_or_empty secret) value.

Lemma obj_set_lookup (key value k : list N) (obj : gmap (list N) (list N)) :
  k <> js "__proto__" ->
  obj_set key value obj !! k = if decide (key = k) then Some value else obj !! k.
Proof.
  intros Hk. unfold obj_set.
  destruct (decide (key = js "__proto__")) as [->|Hne].
  - destruct (decide (js "__proto__" = k)); [congruence | reflexivity].
  - apply lookup_insert.
Qed.

Lemma obj_set_proto (key value : list N) (obj : gmap (list N) (list N)) :
  obj !! js "__proto__" = None -> obj_set key value obj !! js "__proto__" = None.
Proof.
  intros H. unfold obj_set.
  destruct (decide (key = js "__proto__")); [exact H|].
  rewrite lookup_insert_ne by exact n. exact H.
Qed.

Lemma foldl_obj_set_lookup (entries : list (list N * list N)) :
  forall (acc : gmap (list N) (list N)) (k : list N),
    NoDup (entries.*1) ->
    k <> js "__proto__" ->
    foldl (fun processedHeaders '(key, value) =>
             obj_set key (render value) processedHeaders) acc entries !! k
    = match (list_to_map entries : gmap (list N) (list N)) !! k with
      | Some value => Some (render value)
      | None => acc !! k
      end.
Proof.
  induction entries as [|[key value] entries IH]; intros acc k Hnd Hk.
  - simpl. rewrite lookup_empty. reflexivity.
  - simpl in Hnd. apply NoDup_cons in Hnd as [Hfresh Hnd].
    simpl. rewrite IH by assumption.
    rewrite obj_set_lookup by exact Hk.
    destruct (decide (key = k)) as [->|Hne].
    + rewrite lookup_insert_eq.
      rewrite (not_elem_of_list_to_map_1 _ _ Hfresh). reflexivity.
    + rewrite lookup_insert_ne by exact Hne. reflexivity.
Qed.

(** Every header keeps its name and carries its template rendered with the
    secret handed to [replace]. *)
Lemma processHeaderTemplates_lookup (headers : gmap (list N) (list N)) (k : list N) :
  k <> js "__proto__" ->
  processHeaderTemplates headers secret !! k = render <$> headers !! k.
Proof.
  intros Hk. unfold processHeaderTemplates.
  rewrite (foldl_obj_set_lookup (map_to_list headers) ∅ k)
    by (try apply NoDup_fst_map_to_list; exact Hk).
  rewrite list_to_map_to_list, lookup_empty.
  destruct (headers !! k); reflexivity.
Qed.

End Headers.

(** A secret in which no dollar is directly followed by a dollar, an
    ampersand, a backquote, a quote or an opening brace is put in as it
    is: the header is the one-pass rendering of its template. *)
Lemma header_plain_secret (headers : gmap (list N) (list N)) (s k : list N) :
  dollar_plain s = true ->
  k <> js "__proto__" ->
  processHeaderTemplates headers (Some s) !! k
  = render_go [(ph_secret, s)] O <$> headers !! k.
Proof.
  intros Hs Hk. rewrite processHeaderTemplates_lookup by exact Hk.
  destruct (headers !! k) as [value|]; [|reflexivity].
  simpl. rewrite replace_all_render by exact Hs. reflexivity.
Qed.

Example header_bearer_secret :
  processHeaderTemplates {[ js "Authorization" := js "Bearer ${secret}" ]}
                         (Some (js "abc")) !! js "Authorization"
  = Some (js "Bearer abc").
Proof. reflexivity. Qed.

Example header_bearer_no_secret :
  processHeaderTemplates {[ js "Authorization" := js "Bearer ${secret}" ]}
                         None !! js "Authorization"
  = Some (js "Bearer ").
Proof. reflexivity. Qed.

(** The content type is always among the request headers, the default one
    unless a configured header of that name overrides it. *)
Lemma request_headers_content_type (webhook : WebhookConfig) :
  is_Some (request_headers webhook !! js "Content-Type").
Proof.
  unfold request_headers. apply lookup_union_is_Some. right.
  rewrite lookup_singleton_eq. eauto.
Qed.

Example headers_absent :
  request_headers {| url := []; method := js "POST"; secret := None;
                     headers := None; bodyTemplate := [];
                     retryCount := 1; retryDelay := 0 |}
  = {[ js "Content-Type" := js "application/json" ]}.
Proof. reflexivity. Qed.

(** C8, where the code departs from it: the secret [pa$$word] is not put
    in verbatim, [replace] reads its [$$] as one dollar, and the secret
    [a$&b] brings the placeholder back. *)
Theorem header_secret_not_verbatim :
  processHeaderTemplates {[ js "Authorization" := js "Bearer ${secret}" ]}
                         (Some (js "pa$$word")) !! js "Authorization"
  = Some (js "Bearer pa$word") /\
  processHeaderTemplates {[ js "Authorization" := js "Bearer ${secret}" ]}
                         (Some (js "a$&b")) !! js "Authorization"
  = Some (js "Bearer a${secret}b").
Proof. split; reflexivity. Qed.

(** * Further properties *)

(** ** Pattern interpreter: white space and empty fragments *)

Section InterpreterMore.

Lemma trimStart_spaces (l s : list N) :
  forallb is_js_space l = true -> trimStart (l ++ s) = trimStart s.
Proof.
  induction l as [|c l IH]; intros H; [reflexivity|].
  simpl in H. apply andb_true_iff in H as [Hc Hl].
  simpl. rewrite Hc. apply IH, Hl.
Qed.

Lemma trimStart_blank (l : list N) :
  forallb is_js_space l = true -> trimStart l = [].
Proof.
  intros H. rewrite <- (app_nil_r l). rewrite trimStart_spaces by exact H.
  reflexivity.
Qed.

Lemma trimStart_keeps (c : N) (s : list N) :
  is_js_space c = false -> trimStart (c :: s) = c :: s.
Proof. intros H. simpl. rewrite H. reflexivity. Qed.

Lemma forallb_rev {A} (f : A -> bool) (l : list A) :
  forallb f l = true -> forallb f (rev l) = true.
Proof.
  rewrite !forallb_forall. intros H x Hx. apply H, in_rev, Hx.
Qed.

Lemma trimEnd_spaces (s r : list N) :
  forallb is_js_space r = true -> trimEnd (s ++ r) = trimEnd s.
Proof.
  intros H. unfold trimEnd. rewrite rev_app_distr.
  rewrite trimStart_spaces by (apply forallb_rev, H). reflexivity.
Qed.

(** White space around a text does not show after trimming. *)
Lemma trim_padding (l s r : list N) :
  forallb is_js_space l = true -> forallb is_js_space r = true ->
  trim (l ++ s ++ r) = trim s.
Proof.
  intros Hl Hr. unfold trim. rewrite trimStart_spaces by exact Hl.
  destruct (trimStart_spec s) as (l' & Hs & Hl' & Hhd).
  destruct (trimStart s) as [|c t] eqn:E.
  - rewrite app_nil_r in Hs. subst l'.
    rewrite trimStart_blank; [reflexivity|].
    rewrite forallb_app, Hl', Hr. reflexivity.
  - rewrite Hs at 1. rewrite <- app_assoc.
    rewrite trimStart_spaces by exact Hl'.
    change ((c :: t) ++ r) with (c :: (t ++ r)).
    rewrite trimStart_keeps by (eapply Hhd; reflexivity).
    change (c :: t ++ r) with ((c :: t) ++ r).
    apply trimEnd_spaces, Hr.
Qed.

Lemma trim_blank (s : list N) : forallb is_js_space s = true -> trim s = [].
Proof.
  intros H. unfold trim. rewrite trimStart_blank by exact H. reflexivity.
Qed.

(** A text that neither starts nor ends with white space is its own
    trimming. *)
Lemma trim_fixed (s : list N) :
  (forall c t, s = c :: t -> is_js_space c = false) ->
  (forall c t, s = t ++ [c] -> is_js_space c = false) ->
  trim s = s.
Proof.
  intros Hhd Hlast. unfold trim.
  assert (Hstart : trimStart s = s).
  { destruct s as [|c t]; [reflexivity|].
    apply trimStart_keeps. eapply Hhd. reflexivity. }
  rewrite Hstart. unfold trimEnd.
  destruct (rev s) as [|c t] eqn:E.
  - apply (f_equal (@rev N)) in E. rewrite rev_involutive in E. exact (eq_sym E).
  - rewrite trimStart_keeps.
    + rewrite <- E. apply rev_involutive.
    + apply (Hlast c (rev t)).
      apply (f_equal (@rev N)) in E. rewrite rev_involutive in E. exact E.
Qed.

Lemma trim_idempotent (s : list N) : trim (trim s) = trim s.
Proof.
  destruct (trim_spec s) as (l & r & _ & _ & _ & Hhd & Hlast).
  apply trim_fixed; assumption.
Qed.

Lemma trim_keeps_out (x : N) (s : list N) : ~ In x s -> ~ In x (trim s).
Proof.
  intros H Hin. apply H.
  destruct (trim_spec s) as (l & r & Hs & _).
  rewrite Hs. apply in_or_app. right. apply in_or_app. left. exact Hin.
Qed.

Lemma space_not_comma (l : list N) :
  forallb is_js_space l = true -> ~ In comma l.
Proof.
  rewrite forallb_forall. intros H Hin. specialize (H comma Hin). discriminate.
Qed.

Variable config : MiddlewareConfig.
Variable now : list N.

(** The urls of a pattern that is no sentinel, from its fragments. *)
Lemma parse_urls_of_fragments (p : list N) (frags : list (list N)) :
  p <> js "/$/" -> p <> js "/*" ->
  frags <> [] -> Forall (fun f => ~ In comma f) frags ->
  p = join comma frags ->
  urls (parseInvalidationPattern config now p)
  = List.map (fun f => ghostPublicUrl config ++ trim f) frags.
Proof.
  intros H1 H2 Hne Hall Hp. unfold parseInvalidationPattern. simpl.
  rewrite parse_not_sentinel by assumption.
  rewrite Hp, split_join by assumption. reflexivity.
Qed.

(** White space around the fragments of a pattern does not reach the urls:
    a pattern of padded fragments has the urls of the fragments. *)
Theorem parse_ignores_padding (padded : list (list N * list N * list N)) :
  let pad := fun '(l, f, r) => l ++ f ++ r in
  let p := join comma (List.map pad padded) in
  padded <> [] ->
  Forall (fun '(l, f, r) =>
            forallb is_js_space l = true /\ forallb is_js_space r = true /\
            ~ In comma f) padded ->
  p <> js "/$/" -> p <> js "/*" ->
  urls (parseInvalidationPattern config now p)
  = List.map (fun '(l, f, r) => ghostPublicUrl config ++ trim f) padded.
Proof.
  intros pad p Hne Hall H1 H2.
  rewrite (parse_urls_of_fragments p (List.map pad padded)); try assumption;
    try reflexivity.
  - rewrite map_map. apply List.map_ext_Forall.
    eapply List.Forall_impl; [|exact Hall].
    intros [[l f] r] (Hl & Hr & _). unfold pad.
    rewrite trim_padding by assumption. reflexivity.
  - destruct padded; [congruence | discriminate].
  - apply List.Forall_map. eapply List.Forall_impl; [|exact Hall].
    intros [[l f] r] (Hl & Hr & Hf). unfold pad. intros Hin.
    apply in_app_or in Hin as [Hin|Hin];
      [exact (space_not_comma l Hl Hin)|].
    apply in_app_or in Hin as [Hin|Hin];
      [exact (Hf Hin) | exact (space_not_comma r Hr Hin)].
Qed.

(** A fragment that is empty or all white space, such as the one after a
    trailing comma, gives the bare base URL at its place. *)
Theorem parse_blank_fragment (p : list N) (frags : list (list N))
    (i : nat) (f : list N) :
  p <> js "/$/" -> p <> js "/*" ->
  Forall (fun f => ~ In comma f) frags ->
  p = join comma frags ->
  nth_error frags i = Some f ->
  forallb is_js_space f = true ->
  nth_error (urls (parseInvalidationPattern config now p)) i
  = Some (ghostPublicUrl config).
Proof.
  intros H1 H2 Hall Hp Hi Hf.
  rewrite (parse_urls_of_fragments p frags); try assumption.
  - rewrite nth_error_map, Hi. simpl.
    rewrite trim_blank by exact Hf. rewrite app_nil_r. reflexivity.
  - intros ->. destruct i; discriminate.
Qed.

(** Every url of every intent is the base URL followed by a path that
    holds no comma and neither starts nor ends with white space. *)
Theorem parse_urls_wellformed (p : list N) :
  Forall (fun u => exists path,
              u = ghostPublicUrl config ++ path /\
              ~ In comma path /\ trim path = path)
         (urls (parseInvalidationPattern config now p)).
Proof.
  unfold parseInvalidationPattern. simpl.
  destruct (JsString.eqb p (js "/$/") || JsString.eqb p (js "/*")).
  - constructor; [|constructor]. exists (js "/*").
    split; [reflexivity|]. split; [|reflexivity].
    vm_compute. intuition discriminate.
  - apply List.Forall_map. eapply List.Forall_impl; [|apply (no_sep_in_split comma p)].
    intros f Hf. exists (trim f). split; [reflexivity|].
    split; [apply trim_keeps_out, Hf | apply trim_idempotent].
Qed.

End InterpreterMore.

Lemma parse_ignores_padding_witness :
  urls (parseInvalidationPattern example_config example_now
          (js " /a ,/b/*  ,   /a"))
  = [js "https://site/a"; js "https://site/b/*"; js "https://site/a"].
Proof.
  apply (parse_ignores_padding example_config example_now
           [(js " ", js "/a", js " "); ([], js "/b/*", js "  ");
            (js "   ", js "/a", [])]).
  - discriminate.
  - repeat constructor; vm_compute; intuition discriminate.
  - vm_compute. discriminate.
  - vm_compute. discriminate.
Defined.

Lemma parse_blank_fragment_witness :
  nth_error (urls (parseInvalidationPattern example_config example_now (js "/a,")))
            1
  = Some (js "https://site").
Proof.
  apply (parse_blank_fragment example_config example_now (js "/a,")
           [js "/a"; []] 1 []).
  - vm_compute. discriminate.
  - vm_compute. discriminate.
  - repeat constructor; vm_compute; intuition discriminate.
  - reflexivity.
  - reflexivity.
  - reflexivity.
Defined.

(** ** Templater: placeholders that are absent, and the timestamp *)

Section TemplaterMore.

Lemma occurs_cons (P : list N) (c : N) (s : list N) :
  occurs P (c :: s) = false ->
  strip_prefix P (c :: s) = None /\ occurs P s = false.
Proof.
  cbn [occurs]. destruct (strip_prefix P (c :: s)); [discriminate|].
  intros H. split; [reflexivity | exact H].
Qed.

(** A global replacement leaves a text without a match as it is, whatever
    the replacement text. *)
Lemma replace_all_absent (P v s : list N) :
  occurs P s = false -> replace_all P v s = s.
Proof.
  unfold replace_all. generalize (@nil N) as before.
  induction s as [|c s IH]; intros before H; [reflexivity|].
  apply occurs_cons in H as [Hc Hs].
  cbn [replace_go]. rewrite Hc, IH by exact Hs. reflexivity.
Qed.

(** A template in which none of the four placeholders occurs is rendered
    as it is, for every intent. *)
Theorem processTemplate_absent (template : list N) (data : InvalidationData) :
  occurs ph_urls template = false ->
  occurs ph_purgeAll template = false ->
  occurs ph_timestamp template = false ->
  occurs ph_pattern template = false ->
  processTemplate template data = template.
Proof.
  intros H1 H2 H3 H4. unfold processTemplate.
  rewrite (replace_all_absent ph_urls) by exact H1.
  rewrite (replace_all_absent ph_purgeAll) by exact H2.
  rewrite (replace_all_absent ph_timestamp) by exact H3.
  apply replace_all_absent, H4.
Qed.

(** The text put in for [${timestamp}] is the JSON string of the timestamp
    without its two delimiters and nothing else: a quote inside the
    timestamp stays escaped. *)
Theorem val_timestamp_unquoted (data : InvalidationData) :
  val_timestamp data = JSON.quote_body (timestamp data) /\
  JSON.stringify_string (timestamp data)
  = dquote :: val_timestamp data ++ [dquote].
Proof.
  assert (H : val_timestamp data = JSON.quote_body (timestamp data)).
  { unfold val_timestamp, JSON.stringify_string.
    apply strip_outer_quotes_quoted. }
  split; [exact H|]. rewrite H. reflexivity.
Qed.

End TemplaterMore.

Lemma processTemplate_absent_witness :
  processTemplate (js "{all: $purgeAll, cost: ${price}}") nested_purgeAll_data
  = js "{all: $purgeAll, cost: ${price}}".
Proof.
  apply (processTemplate_absent (js "{all: $purgeAll, cost: ${price}}")
           nested_purgeAll_data); reflexivity.
Defined.

(** ** Headers: names, absent placeholders, plain secrets *)

Section HeadersMore.

Variable secret : option (list N).

Lemma foldl_obj_set_proto (entries : list (list N * list N)) :
  forall acc : gmap (list N) (list N),
    acc !! js "__proto__" = None ->
    foldl (fun processedHeaders '(key, value) =>
             obj_set key (replace_all ph_secret (secret_or_empty secret) value)
                     processedHeaders) acc entries !! js "__proto__" = None.
Proof.
  induction entries as [|[key value] entries IH]; intros acc H; [exact H|].
  simpl. apply IH, obj_set_proto, H.
Qed.

(** The processed headers are the configured ones, each under its own name
    with its template passed through [replace]; only a header named
    [__proto__] is lost. *)
Theorem processHeaderTemplates_spec (headers : gmap (list N) (list N)) (k : list N) :
  processHeaderTemplates headers secret !! k
  = if decide (k = js "__proto__") then None
    else replace_all ph_secret (secret_or_empty secret) <$> headers !! k.
Proof.
  destruct (decide (k = js "__proto__")) as [->|Hk].
  - unfold processHeaderTemplates. apply foldl_obj_set_proto, lookup_empty.
  - apply processHeaderTemplates_lookup, Hk.
Qed.

(** A header whose template holds no [${secret}] is sent as configured,
    whatever the secret. *)
Theorem header_without_placeholder (headers : gmap (list N) (list N))
    (k value : list N) :
  k <> js "__proto__" ->
  headers !! k = Some value ->
  occurs ph_secret value = false ->
  processHeaderTemplates headers secret !! k = Some value.
Proof.
  intros Hk Hv Hocc. rewrite processHeaderTemplates_lookup by exact Hk.
  rewrite Hv. simpl. rewrite replace_all_absent by exact Hocc. reflexivity.
Qed.

End HeadersMore.

(** With a secret in which no dollar is directly followed by a dollar, an
    ampersand, a backquote, a quote or an opening brace, a template is
    rendered by putting the secret, as it is, at every occurrence of
    [${secret}] and changing nothing else. *)
Lemma replace_secret_between (s : list N) (pieces : list (list N)) :
  dollar_plain s = true ->
  Forall (fun piece => occurs ph_secret piece = false) pieces ->
  replace_all ph_secret s (between ph_secret pieces) = between s pieces.
Proof.
  intros Hs Hall.
  assert (Hshape : forall P w, In (P, w) [(ph_secret, s)] ->
                               placeholder_shape P = true).
  { intros P w [[= <- <-]|[]]. reflexivity. }
  induction Hall as [|piece rest Hpiece Hrest IH]; [reflexivity|].
  destruct rest as [|piece' rest].
  - apply replace_all_absent, Hpiece.
  - change (between ph_secret (piece :: piece' :: rest))
      with (piece ++ ph_secret ++ between ph_secret (piece' :: rest)).
    change (between s (piece :: piece' :: rest))
      with (piece ++ s ++ between s (piece' :: rest)).
    rewrite replace_all_render by exact Hs.
    rewrite (render_go_app_bounded _ _ (length piece)); [|exact Hshape|reflexivity|lia].
    rewrite <- !replace_all_render by exact Hs.
    rewrite (replace_all_absent _ _ piece) by exact Hpiece.
    rewrite (replace_all_render _ _ (ph_secret ++ _)) by exact Hs.
    destruct (render_go_match [(ph_secret, s)]
                (ph_secret ++ between ph_secret (piece' :: rest)) ph_secret s)
      as (r & E & ->).
    + cbn [first_match]. rewrite strip_prefix_app. reflexivity.
    + discriminate.
    + apply app_inv_head in E. subst r.
      rewrite <- replace_all_render by exact Hs. rewrite IH. reflexivity.
Qed.

(** A header whose template is pieces of text without the placeholder,
    with [${secret}] between them, is sent as the same pieces with such a
    secret between them. *)
Theorem header_plain_secret_everywhere (headers : gmap (list N) (list N))
    (s k : list N) (pieces : list (list N)) :
  dollar_plain s = true ->
  k <> js "__proto__" ->
  Forall (fun piece => occurs ph_secret piece = false) pieces ->
  headers !! k = Some (between ph_secret pieces) ->
  processHeaderTemplates headers (Some s) !! k = Some (between s pieces).
Proof.
  intros Hs Hk Hall Hv. rewrite processHeaderTemplates_lookup by exact Hk.
  rewrite Hv. simpl. rewrite replace_secret_between by assumption. reflexivity.
Qed.

(** What is sent under each name: the configured header rendered, else the
    default content type under [Content-Type], else nothing.  A configured
    [Content-Type] replaces the default; a name that differs from it in
    case does not. *)
Theorem request_headers_spec (webhook : WebhookConfig) (k : list N) :
  k <> js "__proto__" ->
  request_headers webhook !! k
  = match default ∅ (headers webhook) !! k with
    | Some value =>
        Some (replace_all ph_secret (secret_or_empty (secret webhook)) value)
    | None =>
        if decide (k = js "Content-Type") then Some (js "application/json")
        else None
    end.
Proof.
  intros Hk. unfold request_headers.
  rewrite lookup_union, processHeaderTemplates_lookup by exact Hk.
  destruct (default ∅ (headers webhook) !! k) as [value|]; simpl.
  - destruct ({[js "Content-Type" := js "application/json"]} !! k); reflexivity.
  - rewrite lookup_singleton. destruct (decide (js "Content-Type" = k));
      destruct (decide (k = js "Content-Type")); congruence || reflexivity.
Qed.

Lemma header_without_placeholder_witness :
  processHeaderTemplates
    {[ js "X-Source" := js "ghost $1" ]} (Some (js "a$&b")) !! js "X-Source"
  = Some (js "ghost $1").
Proof.
  apply (header_without_placeholder (Some (js "a$&b"))
           {[ js "X-Source" := js "ghost $1" ]} (js "X-Source") (js "ghost $1")).
  - vm_compute. discriminate.
  - reflexivity.
  - reflexivity.
Defined.

Lemma header_plain_secret_everywhere_witness :
  processHeaderTemplates
    {[ js "Authorization" := js "Bearer ${secret}, key=${secret};" ]}
    (Some (js "s3cr$t")) !! js "Authorization"
  = Some (js "Bearer s3cr$t, key=s3cr$t;").
Proof.
  apply (header_plain_secret_everywhere
           {[ js "Authorization" := js "Bearer ${secret}, key=${secret};" ]}
           (js "s3cr$t") (js "Authorization")
           [js "Bearer "; js ", key="; js ";"]).
  - reflexivity.
  - vm_compute. discriminate.
  - repeat constructor.
  - reflexivity.
Defined.

Lemma request_headers_spec_witness :
  (request_headers (example_webhook 3) !! js "content-type" = None) /\
  (request_headers (example_webhook 3) !! js "Content-Type"
   = Some (js "application/json")).
Proof.
  split.
  - rewrite (request_headers_spec (example_webhook 3) (js "content-type")).
    + reflexivity.
    + vm_compute. discriminate.
  - rewrite (request_headers_spec (example_webhook 3) (js "Content-Type")).
    + reflexivity.
    + vm_compute. discriminate.
Defined.

(** ** Delivery engine: every network *)

Section DeliverMore.

Variable config : MiddlewareConfig.
Variable data : InvalidationData.

Let request : Request := webhook_request config data.
Let count : Z := retryCount (webhook config).
Let delay : Z := retryDelay (webhook config).

(** Among the next [n] answers of the network there is a first success, or
    all of them are failures. *)
Lemma first_success_or_none (w : World) (n : nat) :
  (exists k, (k < n)%nat /\
             (forall i, (i < k)%nat ->
                        attempt_failure (network w (fetched w + i)%nat) <> None) /\
             attempt_failure (network w (fetched w + k)%nat) = None) \/
  (forall i, (i < n)%nat ->
             attempt_failure (network w (fetched w + i)%nat) <> None).
Proof.
  induction n as [|n [(k & Hk & Hfail & Hok) | Hall]].
  - right. intros i Hi. lia.
  - left. exists k. split; [lia | split; assumption].
  - destruct (attempt_failure (network w (fetched w + n)%nat)) as [e|] eqn:E.
    + right. intros i Hi.
      destruct (Nat.eq_dec i n) as [->|Hne]; [rewrite E; discriminate|].
      apply Hall. lia.
    + left. exists n. split; [lia | split; assumption].
Qed.

Lemma failed_turns_events (n : nat) :
  Forall (fun e => e = EvFetch request \/ e = EvSleep delay)
         (failed_turns request delay n ++ [EvFetch request]).
Proof.
  unfold request, delay. induction n as [|n IH].
  - repeat constructor.
  - rewrite failed_turns_S. simpl.
    constructor; [left; reflexivity|]. constructor; [right; reflexivity|].
    exact IH.
Qed.

(** Whatever the network answers, delivery with a retry count [N] of at
    least 1 ends in one of two ways: it returns at the first successful
    attempt, the k-th with [k <= N], after [k] fetches; or all [N] attempts
    fail and it throws the failure of the last, after [N] fetches. *)
Theorem deliver_outcome (w : World) :
  (1 <= count)%Z ->
  (exists k, (1 <= k <= Z.to_nat count)%nat /\
     (forall i, (i < k - 1)%nat ->
                attempt_failure (network w (fetched w + i)%nat) <> None) /\
     attempt_failure (network w (fetched w + (k - 1))%nat) = None /\
     sendWebhookRequest config data w
     = (inr tt,
        advance_world w k
          (failed_turns request delay (k - 1) ++ [EvFetch request]))) \/
  (exists e,
     (forall i, (i < Z.to_nat count)%nat ->
                attempt_failure (network w (fetched w + i)%nat) <> None) /\
     attempt_failure (network w (fetched w + (Z.to_nat count - 1))%nat) = Some e /\
     sendWebhookRequest config data w
     = (inl e,
        advance_world w (Z.to_nat count)
          (failed_turns request delay (Z.to_nat count - 1) ++ [EvFetch request]))).
Proof.
  intros Hcount. unfold sendWebhookRequest. fold request count.
  destruct (first_success_or_none w (Z.to_nat count))
    as [(k & Hk & Hfail & Hok) | Hall].
  - left. exists (S k). replace (S k - 1)%nat with k by lia.
    split; [lia|]. split; [exact Hfail|]. split; [exact Hok|].
    pose proof (retry_loop_succeeds_at config request (S k) w) as H.
    replace (S k - 1)%nat with k in H by lia.
    apply H; [lia | unfold count in *; lia | exact Hfail | exact Hok].
  - destruct (attempt_failure
                (network w (fetched w + (Z.to_nat count - 1))%nat))
      as [e|] eqn:E.
    2:{ exfalso. apply (Hall (Z.to_nat count - 1)%nat); [lia | exact E]. }
    right. exists e. split; [exact Hall|]. split; [reflexivity|].
    apply retry_loop_exhausted; assumption.
Qed.

(** The retry budget: on every network, delivery makes at most
    [retryCount] fetches and one sleep fewer than fetches; every fetch
    sends the same request and every sleep lasts [retryDelay]. *)
Theorem deliver_budget (w : World) :
  exists n evs,
    snd (sendWebhookRequest config data w) = advance_world w n evs /\
    (n <= Z.to_nat count)%nat /\
    fetch_count evs = n /\
    sleeps evs = repeat delay (n - 1) /\
    Forall (fun e => e = EvFetch request \/ e = EvSleep delay) evs.
Proof.
  destruct (Z.le_gt_cases count 0) as [Hle | Hgt].
  - exists 0%nat, []. unfold sendWebhookRequest. fold count.
    replace (Z.to_nat count) with 0%nat by lia. simpl.
    rewrite advance_world_0. repeat split; constructor.
  - destruct (deliver_outcome w) as [(k & Hk & _ & _ & ->) | (e & _ & _ & ->)];
      [lia | |].
    + exists k, (failed_turns request delay (k - 1) ++ [EvFetch request]).
      split; [reflexivity|]. split; [lia|].
      split; [unfold request, delay; rewrite fetch_count_failed_turns; lia|].
      split; [apply sleeps_failed_turns | apply failed_turns_events].
    + exists (Z.to_nat count),
        (failed_turns request delay (Z.to_nat count - 1) ++ [EvFetch request]).
      split; [reflexivity|]. split; [lia|].
      split; [unfold request, delay; rewrite fetch_count_failed_turns; lia|].
      split; [apply sleeps_failed_turns | apply failed_turns_events].
Qed.

End DeliverMore.

(** [triggerWebhook] adds nothing to the delivery of the interpreted
    pattern: what it throws is what the delivery threw. *)
Lemma triggerWebhook_transparent (config : MiddlewareConfig)
    (now pattern : list N) (w : World) :
  triggerWebhook config now pattern w
  = sendWebhookRequest config (parseInvalidationPattern config now pattern) w.
Proof.
  unfold triggerWebhook, try_catch, throw.
  destruct (sendWebhookRequest _ _ w) as [[e|[]] w']; reflexivity.
Qed.

(** What a fired timer runs: the delivery of the interpreted pattern, on
    the same world, with every failure kept from the event loop.  When all
    attempts fail the callback still returns normally, the fetches made. *)
Theorem timer_callback_swallows (config : MiddlewareConfig)
    (now pattern : list N) (w : World) :
  timer_callback config now pattern w
  = (inr tt,
     snd (sendWebhookRequest config
            (parseInvalidationPattern config now pattern) w)).
Proof.
  unfold timer_callback, try_catch, ret.
  rewrite triggerWebhook_transparent.
  destruct (sendWebhookRequest _ _ w) as [[e|[]] w']; reflexivity.
Qed.

Lemma deliver_outcome_witness :
  fst (sendWebhookRequest example_config example_data (flaky_world 1)) = inr tt /\
  fetched (snd (sendWebhookRequest example_config example_data (flaky_world 1)))
  = 2%nat.
Proof.
  destruct (deliver_outcome example_config example_data (flaky_world 1))
    as [(k & Hk & Hfail & Hok & Hrun) | (e & Hall & _)].
  - simpl. lia.
  - rewrite Hrun. split; [reflexivity|]. simpl.
    destruct k as [|[|[|k]]]; try reflexivity; try discriminate; simpl in Hk; lia.
  - exfalso. apply (Hall 1%nat); [simpl; lia | reflexivity].
Defined.

(** ** Debounce gate: every timeline *)

Section DebounceMore.

(** A call that arrives when the window of the pending dispatch has
    elapsed finds that dispatch made, and sets the next. *)
Lemma arrive_after_window done (t t' : Z) (p p' : list N) (l : Loop) :
  waiting done t p l -> (t + debounceTime <= t')%Z ->
  waiting (done ++ [p]) t' p' (arrive l (t', p')).
Proof.
  intros Hw Hle. pose proof (waiting_single_timer _ _ _ _ Hw) as Hs.
  destruct Hw as (Hc & Hd & h & Ht & Hh).
  unfold arrive. simpl.
  rewrite debounce_replaces by (apply single_timer_run_timers, Hs).
  unfold waiting, run_timers. simpl. rewrite Ht, Hd. simpl.
  unfold is_due. simpl.
  destruct (Z.leb_spec (t + debounceTime) t') as [_|Hlt]; [|lia].
  simpl. rewrite Hc, Z.max_r by (unfold debounceTime in *; lia).
  split; [reflexivity|]. split; [reflexivity|].
  eexists. split; reflexivity.
Qed.

Lemma run_timeline (rest : list (Z * list N)) :
  forall done t p l T,
    waiting done t p l -> timeline_from t rest = true ->
    (fst (List.last rest (t, p)) + debounceTime <= T)%Z ->
    dispatched (run_timers T (run rest l)) = done ++ survivors ((t, p) :: rest) /\
    timers (run_timers T (run rest l)) = [].
Proof.
  induction rest as [|[t' p'] rest IH]; intros done t p l T Hw Htl HT.
  - simpl in HT. apply (waiting_fires _ _ _ _ T Hw). exact HT.
  - simpl in Htl. apply andb_true_iff in Htl as [Htl Hrest].
    apply andb_true_iff in Htl as [Hle _]. apply Z.leb_le in Hle.
    rewrite last_cons in HT.
    change (run ((t', p') :: rest) l) with (run rest (arrive l (t', p'))).
    change (survivors ((t, p) :: (t', p') :: rest))
      with (if (t + debounceTime <=? t')%Z
            then p :: survivors ((t', p') :: rest)
            else survivors ((t', p') :: rest)).
    destruct (Z.leb_spec (t + debounceTime) t') as [Hafter|Hbefore].
    + destruct (IH (done ++ [p]) t' p' (arrive l (t', p')) T) as [Hd Ht];
        [apply (arrive_after_window done t t' p p' l); assumption | exact Hrest | exact HT |].
      rewrite Hd, <- app_assoc. split; [reflexivity | exact Ht].
    + apply IH; [|exact Hrest | exact HT].
      eapply arrive_in_window; eassumption.
Qed.

(** The same for calls that are only in the order of their times: a call
    at the very millisecond the pending timer is due finds, on this event
    loop, the dispatch made. *)
Lemma run_in_order (rest : list (Z * list N)) :
  forall done t p l T,
    waiting done t p l -> in_order_from t rest = true ->
    (fst (List.last rest (t, p)) + debounceTime <= T)%Z ->
    dispatched (run_timers T (run rest l)) = done ++ survivors ((t, p) :: rest).
Proof.
  induction rest as [|[t' p'] rest IH]; intros done t p l T Hw Hord HT.
  - simpl in HT. apply (waiting_fires _ _ _ _ T Hw). exact HT.
  - simpl in Hord. apply andb_true_iff in Hord as [Hle Hrest].
    apply Z.leb_le in Hle.
    rewrite last_cons in HT.
    change (run ((t', p') :: rest) l) with (run rest (arrive l (t', p'))).
    change (survivors ((t, p) :: (t', p') :: rest))
      with (if (t + debounceTime <=? t')%Z
            then p :: survivors ((t', p') :: rest)
            else survivors ((t', p') :: rest)).
    destruct (Z.leb_spec (t + debounceTime) t') as [Hafter|Hbefore].
    + rewrite (IH (done ++ [p]) t' p' (arrive l (t', p')) T);
        [rewrite <- app_assoc; reflexivity
        | apply (arrive_after_window done t t' p p' l); assumption
        | exact Hrest | exact HT].
    + apply IH; [|exact Hrest | exact HT].
      eapply arrive_in_window; eassumption.
Qed.

Lemma survivors_spaced (rest : list (Z * list N)) :
  forall t p, spaced_from t rest = true ->
    survivors ((t, p) :: rest) = p :: List.map snd rest.
Proof.
  induction rest as [|[t' p'] rest IH]; intros t p H; [reflexivity|].
  simpl in H. apply andb_true_iff in H as [Hlt Hrest]. apply Z.ltb_lt in Hlt.
  change (survivors ((t, p) :: (t', p') :: rest))
    with (if (t + debounceTime <=? t')%Z
          then p :: survivors ((t', p') :: rest)
          else survivors ((t', p') :: rest)).
  destruct (Z.leb_spec (t + debounceTime) t'); [|lia].
  rewrite IH by exact Hrest. reflexivity.
Qed.

Lemma spaced_timeline (rest : list (Z * list N)) :
  forall t, spaced_from t rest = true -> timeline_from t rest = true.
Proof.
  induction rest as [|[t' p'] rest IH]; intros t H; [reflexivity|].
  simpl in *. apply andb_true_iff in H as [Hlt Hrest]. apply Z.ltb_lt in Hlt.
  rewrite IH by exact Hrest. rewrite andb_true_r.
  apply andb_true_iff. unfold debounceTime in *. split.
  - apply Z.leb_le. lia.
  - apply negb_true_iff, Z.eqb_neq. lia.
Qed.

(** The pattern of the last call is the last survivor, and the survivors
    are patterns of the calls, in the order of the calls. *)
Lemma survivors_last (rest : list (Z * list N)) :
  forall t p, exists earlier,
    survivors ((t, p) :: rest) = earlier ++ [snd (List.last rest (t, p))] /\
    sublist (earlier ++ [snd (List.last rest (t, p))]) (p :: List.map snd rest).
Proof.
  induction rest as [|[t' p'] rest IH]; intros t p.
  - exists []. split; reflexivity.
  - destruct (IH t' p') as (earlier & E & Hsub).
    rewrite last_cons.
    change (survivors ((t, p) :: (t', p') :: rest))
      with (if (t + debounceTime <=? t')%Z
            then p :: survivors ((t', p') :: rest)
            else survivors ((t', p') :: rest)).
    destruct (t + debounceTime <=? t')%Z.
    + exists (p :: earlier). rewrite E. split; [reflexivity|].
      simpl. apply sublist_skip. exact Hsub.
    + exists earlier. split; [exact E|].
      simpl. apply sublist_cons. exact Hsub.
Qed.

(** The dispatches of a whole timeline of calls on an instance with
    nothing pending: once the window of the last call has elapsed, exactly
    the calls not followed by another call within 10,000 ms have been
    dispatched, each once, in the order of the calls, and no timer is
    left. *)
Theorem debounce_timeline (l0 : Loop) (t0 : Z) (p0 : list N)
    (rest : list (Z * list N)) (T : Z) :
  timers l0 = [] -> (clock l0 <= t0)%Z ->
  timeline ((t0, p0) :: rest) = true ->
  (fst (List.last rest (t0, p0)) + debounceTime <= T)%Z ->
  dispatched (run_timers T (run ((t0, p0) :: rest) l0))
  = dispatched l0 ++ survivors ((t0, p0) :: rest) /\
  timers (run_timers T (run ((t0, p0) :: rest) l0)) = [].
Proof.
  intros Hidle Hclock Htl HT.
  change (run ((t0, p0) :: rest) l0) with (run rest (arrive l0 (t0, p0))).
  apply run_timeline; [|exact Htl | exact HT].
  apply arrive_idle; [exact Hidle | reflexivity | exact Hclock].
Qed.

(** Calls that are each more than 10,000 ms after the one before are all
    dispatched, in their order: nothing is lost to the debounce. *)
Theorem debounce_spaced (l0 : Loop) (t0 : Z) (p0 : list N)
    (rest : list (Z * list N)) (T : Z) :
  timers l0 = [] -> (clock l0 <= t0)%Z ->
  spaced_from t0 rest = true ->
  (fst (List.last rest (t0, p0)) + debounceTime <= T)%Z ->
  dispatched (run_timers T (run ((t0, p0) :: rest) l0))
  = dispatched l0 ++ List.map snd ((t0, p0) :: rest).
Proof.
  intros Hidle Hclock Hsp HT.
  change (run ((t0, p0) :: rest) l0) with (run rest (arrive l0 (t0, p0))).
  destruct (run_timeline rest (dispatched l0) t0 p0 (arrive l0 (t0, p0)) T)
    as [Hd _]; [| apply spaced_timeline, Hsp | exact HT |].
  - apply arrive_idle; [exact Hidle | reflexivity | exact Hclock].
  - rewrite Hd, survivors_spaced by exact Hsp. reflexivity.
Qed.

(** Whatever the timing of calls that come in the order of their times,
    a call at the very millisecond a timer is due included, the last
    dispatch is the pattern of the last call, and the dispatches are
    patterns of the calls in the order of the calls, none twice for one
    call. *)
Theorem debounce_last_wins (l0 : Loop) (t0 : Z) (p0 : list N)
    (rest : list (Z * list N)) (T : Z) :
  timers l0 = [] -> (clock l0 <= t0)%Z ->
  in_order ((t0, p0) :: rest) = true ->
  (fst (List.last rest (t0, p0)) + debounceTime <= T)%Z ->
  exists earlier,
    dispatched (run_timers T (run ((t0, p0) :: rest) l0))
    = dispatched l0 ++ earlier ++ [snd (List.last rest (t0, p0))] /\
    sublist (earlier ++ [snd (List.last rest (t0, p0))])
            (List.map snd ((t0, p0) :: rest)).
Proof.
  intros Hidle Hclock Hord HT.
  change (run ((t0, p0) :: rest) l0) with (run rest (arrive l0 (t0, p0))).
  pose proof (run_in_order rest (dispatched l0) t0 p0 (arrive l0 (t0, p0)) T)
    as Hd.
  rewrite Hd; [| | exact Hord | exact HT].
  - destruct (survivors_last rest t0 p0) as (earlier & E & Hsub).
    exists earlier. rewrite E. split; [reflexivity | exact Hsub].
  - apply arrive_idle; [exact Hidle | reflexivity | exact Hclock].
Qed.

End DebounceMore.

Lemma debounce_timeline_witness :
  dispatched
    (run_timers 60000
       (run [(0, js "/a"); (5000, js "/b"); (20000, js "/c"); (29999, js "/d");
             (45000, js "/e")]%Z (new_dispatcher 0)))
  = [js "/b"; js "/d"; js "/e"].
Proof.
  apply (debounce_timeline (new_dispatcher 0) 0 (js "/a")
           [(5000, js "/b"); (20000, js "/c"); (29999, js "/d");
            (45000, js "/e")]%Z 60000).
  - reflexivity.
  - simpl. lia.
  - reflexivity.
  - simpl. unfold debounceTime. lia.
Defined.

Lemma debounce_spaced_witness :
  dispatched
    (run_timers 40000
       (run [(0, js "/a"); (10001, js "/b"); (25000, js "/a")]%Z (new_dispatcher 0)))
  = [js "/a"; js "/b"; js "/a"].
Proof.
  apply (debounce_spaced (new_dispatcher 0) 0 (js "/a")
           [(10001, js "/b"); (25000, js "/a")]%Z 40000).
  - reflexivity.
  - simpl. lia.
  - reflexivity.
  - simpl. unfold debounceTime. lia.
Defined.

Lemma debounce_last_wins_witness :
  exists earlier,
    dispatched
      (run_timers 60000
         (run [(0, js "/a"); (10000, js "/b"); (10000, js "/c")]%Z (new_dispatcher 0)))
    = earlier ++ [js "/c"].
Proof.
  destruct (debounce_last_wins (new_dispatcher 0) 0 (js "/a")
              [(10000, js "/b"); (10000, js "/c")]%Z 60000)
    as (earlier & E & _).
  - reflexivity.
  - simpl. lia.
  - reflexivity.
  - simpl. unfold debounceTime. lia.
  - exists earlier. exact E.
Defined.

(** ** The debug print: the body in the curl command *)

Section CurlCommand.

Lemma escape_go_flat_map (body : list N) :
  forall before,
    replace_go [39] (js "'\''") O before body
    = flat_map (fun c => if c =? 39 then js "'\''" else [c]) body.
Proof.
  induction body as [|c body IH]; intros before; [reflexivity|].
  cbn [replace_go strip_prefix flat_map].
  rewrite N.eqb_sym. destruct (c =? 39).
  - rewrite GetSubstitution_plain by reflexivity.
    change (length [39] - 1)%nat with O. rewrite IH. reflexivity.
  - rewrite IH. reflexivity.
Qed.

(** Escaping rewrites every single quote of the body into the four code
    units that close the quoted text, give an escaped quote and open a
    quoted text again, and keeps every other code unit. *)
Lemma escape_single_quotes_flat_map (body : list N) :
  escape_single_quotes body
  = flat_map (fun c => if c =? 39 then js "'\''" else [c]) body.
Proof. apply escape_go_flat_map. Qed.

Lemma sh_word_escaped (body : list N) :
  sh_word true (escape_single_quotes body ++ [39]) = Some body.
Proof.
  rewrite escape_single_quotes_flat_map.
  induction body as [|c body IH]; [reflexivity|].
  cbn [flat_map]. destruct (N.eqb_spec c 39) as [->|Hne].
  - change ((js "'\''" ++ flat_map _ body) ++ [39])
      with (39 :: 92 :: 39 :: 39 :: (flat_map
              (fun c => if c =? 39 then js "'\''" else [c]) body ++ [39])).
    cbn [sh_word]. simpl N.eqb. cbn [sh_word]. simpl N.eqb.
    rewrite IH. reflexivity.
  - change (([c] ++ flat_map _ body) ++ [39])
      with (c :: (flat_map
              (fun c => if c =? 39 then js "'\''" else [c]) body ++ [39])).
    cbn [sh_word]. destruct (N.eqb_spec c 39); [contradiction|].
    rewrite IH. reflexivity.
Qed.

(** The curl command that debug mode prints ends, when the body is not
    empty and the method is neither GET nor HEAD, with a [--data] word that
    a shell reads back as the body, whatever quotes the body holds;
    otherwise it has no [--data] word at all. *)
Theorem curl_command_data (method url : list N)
    (entries : list (list N * list N)) (body : list N) :
  curl_command method url entries body
  = curl_command method url entries []
      ++ (if prints_data method body
          then js " \" ++ 10 :: js "     --data "
                 ++ 39 :: escape_single_quotes body ++ [39]
          else []) /\
  sh_word false (39 :: escape_single_quotes body ++ [39]) = Some body.
Proof.
  split.
  - unfold curl_command. change (prints_data method []) with false.
    cbv iota. destruct (prints_data method body).
    + reflexivity.
    + rewrite app_nil_r. reflexivity.
  - cbn [sh_word]. change (39 =? 39) with true. cbv iota.
    apply sh_word_escaped.
Qed.

End CurlCommand.

(** ** From the pattern to the body *)

Section Pipeline.

Lemma dollar_plain_app_inv (a b : list N) :
  dollar_plain (a ++ b) = true ->
  dollar_plain a = true /\ dollar_plain b = true.
Proof.
  induction a as [|c a IH]; intros H; [split; [reflexivity | exact H]|].
  simpl in H. apply andb_true_iff in H as [Hc H].
  destruct (IH H) as [Ha Hb]. split; [|exact Hb].
  simpl. rewrite Ha, andb_true_r.
  destruct (c =? dollar); [|reflexivity].
  destruct a as [|d a]; [reflexivity | exact Hc].
Qed.

Lemma dollar_plain_tail (c : N) (s : list N) :
  dollar_plain (c :: s) = true -> dollar_plain s = true.
Proof. simpl. intros H. apply andb_true_iff in H as [_ H]. exact H. Qed.

Lemma dollar_plain_after_plain (a b : list N) :
  forallb (fun x => negb (x =? dollar)) a = true ->
  dollar_plain b = true -> dollar_plain (a ++ b) = true.
Proof.
  induction a as [|c a IH]; intros Ha Hb; [exact Hb|].
  simpl in Ha. apply andb_true_iff in Ha as [Hc Ha].
  apply negb_true_iff in Hc. simpl. rewrite Hc. simpl. apply IH; assumption.
Qed.

Lemma dollar_plain_join (sep : N) (frags : list (list N)) :
  dollar_plain (join sep frags) = true -> forallb dollar_plain frags = true.
Proof.
  induction frags as [|f rest IH]; intros H; [reflexivity|].
  destruct rest as [|g rest].
  - simpl in *. rewrite H. reflexivity.
  - change (join sep (f :: g :: rest)) with (f ++ sep :: join sep (g :: rest)) in H.
    apply dollar_plain_app_inv in H as [Hf H].
    apply dollar_plain_tail in H.
    change (forallb dollar_plain (f :: g :: rest))
      with (dollar_plain f && forallb dollar_plain (g :: rest)).
    rewrite Hf, IH by exact H. reflexivity.
Qed.

Lemma dollar_plain_trim (f : list N) :
  dollar_plain f = true -> dollar_plain (trim f) = true.
Proof.
  intros H. destruct (trim_spec f) as (l & r & Hf & _).
  rewrite Hf in H. apply dollar_plain_app_inv in H as [_ H].
  apply dollar_plain_app_inv in H as [H _]. exact H.
Qed.

Variable config : MiddlewareConfig.
Variable now : list N.

Hypothesis base_plain :
  forallb (fun x => negb (x =? dollar)) (ghostPublicUrl config) = true.
Hypothesis now_iso : iso_timestamp now = true.

(** With a base URL that holds no dollar and the clock's ISO timestamp,
    the intent of a pattern is plain as soon as the pattern is: no dollar
    of it directly followed by a dollar, an ampersand, a backquote, a quote
    or an opening brace.  The sentinel [/$/] is such a pattern. *)
Lemma parse_plain_intent (p : list N) :
  dollar_plain p = true ->
  plain_intent (parseInvalidationPattern config now p) = true.
Proof.
  intros Hp. unfold plain_intent, parseInvalidationPattern. simpl.
  rewrite now_iso, Hp, andb_true_r. simpl.
  destruct (JsString.eqb p (js "/$/") || JsString.eqb p (js "/*")).
  - simpl. rewrite andb_true_r.
    apply dollar_plain_after_plain; [exact base_plain | reflexivity].
  - rewrite forallb_forall. intros u Hu.
    apply in_map_iff in Hu as (f & <- & Hf).
    apply dollar_plain_after_plain; [exact base_plain|].
    apply dollar_plain_trim.
    assert (Hall : forallb dollar_plain (split comma p) = true).
    { apply (dollar_plain_join comma). rewrite join_split. exact Hp. }
    rewrite forallb_forall in Hall. apply Hall, Hf.
Qed.

(** From the raw pattern to the body: under the same conditions the body
    sent for a pattern is the one-pass rendering of the template with the
    interpreted pattern. *)
Theorem body_of_pattern (p template : list N) :
  dollar_plain p = true ->
  processTemplate template (parseInvalidationPattern config now p)
  = render_single_pass template (parseInvalidationPattern config now p).
Proof.
  intros Hp. apply processTemplate_one_pass, parse_plain_intent, Hp.
Qed.

(** The shipped body template renders, for such a pattern, to the JSON
    object with the members urls, timestamp and purgeAll of the intent. *)
Theorem default_body_of_pattern (p : list N) :
  dollar_plain p = true ->
  let data := parseInvalidationPattern config now p in
  processTemplate default_body_template data
  = js "{" ++ dquote :: js "urls" ++ dquote :: js ": "
      ++ JSON.stringify_array (urls data) ++ js ", "
      ++ dquote :: js "timestamp" ++ dquote :: js ": "
      ++ dquote :: now ++ dquote :: js ", "
      ++ dquote :: js "purgeAll" ++ dquote :: js ": "
      ++ JSON.stringify_bool (purgeAll data) ++ js "}".
Proof.
  intros Hp data. unfold data. rewrite body_of_pattern by exact Hp.
  unfold render_single_pass, body_substitutions.
  set (d := parseInvalidationPattern config now p).
  change (timestamp d) with now.
  generalize (JSON.stringify_array (urls d)) as u.
  generalize (JSON.stringify_bool (purgeAll d)) as b.
  generalize (JSON.stringify_string (pattern d)) as q.
  intros q b u. vm_compute. reflexivity.
Qed.

End Pipeline.

Lemma body_of_pattern_witness :
  processTemplate default_body_template
    (parseInvalidationPattern example_config example_now (js "/$/"))
  = render_single_pass default_body_template
      (parseInvalidationPattern example_config example_now (js "/$/")).
Proof.
  apply (body_of_pattern example_config example_now); reflexivity.
Defined.

Lemma default_body_of_pattern_witness :
  processTemplate default_body_template
    (parseInvalidationPattern example_config example_now (js "/a, /rss"))
  = js "{" ++ dquote :: js "urls" ++ dquote :: js ": ["
      ++ dquote :: js "https://site/a" ++ dquote :: js ","
      ++ dquote :: js "https://site/rss" ++ dquote :: js "], "
      ++ dquote :: js "timestamp" ++ dquote :: js ": "
      ++ dquote :: js "2024-01-01T00:00:00.000Z" ++ dquote :: js ", "
      ++ dquote :: js "purgeAll" ++ dquote :: js ": false}".
Proof.
  rewrite (default_body_of_pattern example_config example_now);
    reflexivity.
Defined.

(** ** The sentinels are matched letter for letter *)

Section Sentinels.

Variable config : MiddlewareConfig.
Variable now : list N.

(** Only a pattern that is a sentinel letter for letter is a full purge.  A
    sentinel with white space around it is a partial purge of one url, the
    base URL followed by the sentinel's own text. *)
Theorem parse_sentinel_exact (p : list N) :
  (purgeAll (parseInvalidationPattern config now p) = true
   <-> p = js "/$/" \/ p = js "/*") /\
  (forall s, s = js "/$/" \/ s = js "/*" ->
             trim p = s -> p <> s ->
             purgeAll (parseInvalidationPattern config now p) = false /\
             urls (parseInvalidationPattern config now p)
             = [ghostPublicUrl config ++ s]).
Proof.
  split.
  - unfold parseInvalidationPattern. simpl.
    rewrite orb_true_iff, !eqb_eq. reflexivity.
  - intros s Hs Htrim Hne.
    assert (H1 : p <> js "/$/").
    { intros ->. destruct Hs as [-> | ->]; [congruence|]. discriminate Htrim. }
    assert (H2 : p <> js "/*").
    { intros ->. destruct Hs as [-> | ->]; [discriminate Htrim | congruence]. }
    split.
    + unfold parseInvalidationPattern. simpl.
      apply parse_not_sentinel; assumption.
    + rewrite (parse_urls_of_fragments config now p [p]);
        try assumption; try reflexivity; try discriminate.
      * simpl. rewrite Htrim. reflexivity.
      * constructor; [|constructor].
        destruct (trim_spec p) as (l & r & Hp & Hl & Hr & _).
        rewrite Hp, Htrim. intros Hin.
        apply in_app_or in Hin as [Hin|Hin];
          [exact (space_not_comma l Hl Hin)|].
        apply in_app_or in Hin as [Hin|Hin];
          [|exact (space_not_comma r Hr Hin)].
        destruct Hs as [-> | ->]; vm_compute in Hin; intuition discriminate.
Qed.

End Sentinels.

(** ** The debug print: the headers in the curl command *)

Section CurlHeaders.

Lemma curl_headers_fold (entries : list (list N * list N)) :
  forall start,
    fold_left (fun curlCommand '(key, value) =>
                 curlCommand ++ js " \" ++ 10 :: js "     --header '"
                   ++ key ++ js ": " ++ value ++ js "'")
              entries start
    = start ++ flat_map (fun '(key, value) =>
                           js " \" ++ 10 :: js "     --header '"
                             ++ key ++ js ": " ++ value ++ js "'") entries.
Proof.
  induction entries as [|[key value] entries IH]; intros start.
  - simpl. rewrite app_nil_r. reflexivity.
  - cbn [fold_left flat_map]. rewrite IH, <- app_assoc. reflexivity.
Qed.

(** Every header of the request stands in the printed command between
    single quotes, name and value as they are: the value is neither
    escaped nor masked, so a header rendered from the secret shows the
    secret. *)
Theorem curl_command_shows_headers (method url : list N)
    (entries : list (list N * list N)) (body key value : list N) :
  In (key, value) entries ->
  exists before after,
    curl_command method url entries body
    = before ++ js "--header '" ++ key ++ js ": " ++ value ++ js "'" ++ after.
Proof.
  intros Hin. apply in_split in Hin as (e1 & e2 & ->).
  unfold curl_command. rewrite curl_headers_fold, flat_map_app.
  cbn [flat_map].
  set (front := flat_map _ e1). set (back := flat_map _ e2).
  set (start := js "curl --request " ++ _).
  change (js "     --header '") with (js "     " ++ js "--header '").
  exists (start ++ front ++ js " \" ++ 10 :: js "     ").
  destruct (prints_data method body).
  - eexists (back ++ _).
    repeat (rewrite <- app_assoc || rewrite <- app_comm_cons). reflexivity.
  - exists back.
    repeat (rewrite <- app_assoc || rewrite <- app_comm_cons). reflexivity.
Qed.

End CurlHeaders.

Lemma parse_sentinel_exact_witness :
  purgeAll (parseInvalidationPattern example_config example_now (js " /$/")) = false /\
  urls (parseInvalidationPattern example_config example_now (js " /$/"))
  = [js "https://site/$/"].
Proof.
  apply (proj2 (parse_sentinel_exact example_config example_now (js " /$/"))
           (js "/$/")).
  - left. reflexivity.
  - reflexivity.
  - vm_compute. discriminate.
Defined.

Lemma curl_command_shows_headers_witness :
  exists before after,
    curl_command (js "POST") (js "https://api.example.com/invalidate")
      [(js "Content-Type", js "application/json");
       (js "Authorization", js "Bearer abc")] (js "{}")
    = before ++ js "--header 'Authorization: Bearer abc'" ++ after.
Proof.
  destruct (curl_command_shows_headers (js "POST")
              (js "https://api.example.com/invalidate")
              [(js "Content-Type", js "application/json");
               (js "Authorization", js "Bearer abc")]
              (js "{}") (js "Authorization") (js "Bearer abc"))
    as (before & after & E).
  - simpl. tauto.
  - exists before, after. rewrite E. reflexivity.
Defined.

(** ** Debounce gate: before the window has elapsed, and the timers *)

Section DebounceWindow.

Lemma survivors_nonempty (rest : list (Z * list N)) :
  forall t p, survivors ((t, p) :: rest) <> [].
Proof.
  induction rest as [|[t' p'] rest IH]; intros t p; [discriminate|].
  change (survivors ((t, p) :: (t', p') :: rest))
    with (if (t + debounceTime <=? t')%Z
          then p :: survivors ((t', p') :: rest)
          else survivors ((t', p') :: rest)).
  destruct (t + debounceTime <=? t')%Z; [discriminate | apply IH].
Qed.

Lemma run_timeline_early (rest : list (Z * list N)) :
  forall done t p l T,
    waiting done t p l -> timeline_from t rest = true ->
    (T < fst (List.last rest (t, p)) + debounceTime)%Z ->
    dispatched (run_timers T (run rest l))
    = done ++ removelast (survivors ((t, p) :: rest)) /\
    length (timers (run_timers T (run rest l))) = 1%nat.
Proof.
  induction rest as [|[t' p'] rest IH]; intros done t p l T Hw Htl HT.
  - simpl in HT. simpl. rewrite app_nil_r.
    apply (waiting_fires _ _ _ _ T Hw). exact HT.
  - simpl in Htl. apply andb_true_iff in Htl as [Htl Hrest].
    apply andb_true_iff in Htl as [Hle _]. apply Z.leb_le in Hle.
    rewrite last_cons in HT.
    change (run ((t', p') :: rest) l) with (run rest (arrive l (t', p'))).
    change (survivors ((t, p) :: (t', p') :: rest))
      with (if (t + debounceTime <=? t')%Z
            then p :: survivors ((t', p') :: rest)
            else survivors ((t', p') :: rest)).
    destruct (Z.leb_spec (t + debounceTime) t') as [Hafter|Hbefore].
    + destruct (IH (done ++ [p]) t' p' (arrive l (t', p')) T) as [Hd Ht];
        [apply (arrive_after_window done t t' p p' l); assumption
        | exact Hrest | exact HT |].
      rewrite Hd, <- app_assoc. split; [|exact Ht]. f_equal.
      pose proof (survivors_nonempty rest t' p') as Hne.
      destruct (survivors ((t', p') :: rest)); [congruence | reflexivity].
    + apply IH; [|exact Hrest | exact HT].
      eapply arrive_in_window; eassumption.
Qed.

(** Until the window of the last call has elapsed its dispatch has not
    been made: the dispatches are the surviving calls but the last, and
    the timer of the last call is pending. *)
Theorem debounce_not_before_window (l0 : Loop) (t0 : Z) (p0 : list N)
    (rest : list (Z * list N)) (T : Z) :
  timers l0 = [] -> (clock l0 <= t0)%Z ->
  timeline ((t0, p0) :: rest) = true ->
  (T < fst (List.last rest (t0, p0)) + debounceTime)%Z ->
  dispatched (run_timers T (run ((t0, p0) :: rest) l0))
  = dispatched l0 ++ removelast (survivors ((t0, p0) :: rest)) /\
  length (timers (run_timers T (run ((t0, p0) :: rest) l0))) = 1%nat.
Proof.
  intros Hidle Hclock Htl HT.
  change (run ((t0, p0) :: rest) l0) with (run rest (arrive l0 (t0, p0))).
  apply run_timeline_early; [|exact Htl | exact HT].
  apply arrive_idle; [exact Hidle | reflexivity | exact Hclock].
Qed.

(** Whatever the calls and their times, in order or not, no two timers are
    ever pending, and a pending timer is the one whose handle the instance
    holds: a superseded timer is cleared, never left behind. *)
Theorem debounce_never_two_timers (l0 : Loop) (calls : list (Z * list N)) (T : Z) :
  timers l0 = [] ->
  (length (timers (run_timers T (run calls l0))) <= 1)%nat /\
  (forall tm, In tm (timers (run_timers T (run calls l0))) ->
              cachePurgeTimeout (run_timers T (run calls l0)) = Some (timer_id tm)).
Proof.
  intros Hidle.
  assert (Hs : single_timer (run_timers T (run calls l0))).
  { apply single_timer_run_timers, single_timer_run. left. exact Hidle. }
  split; [apply single_timer_length, Hs|].
  intros tm Hin. destruct Hs as [Hs | (tm' & Hs & Hh)]; rewrite Hs in Hin.
  - destruct Hin.
  - destruct Hin as [<- | []]. exact Hh.
Qed.

End DebounceWindow.

Lemma debounce_not_before_window_witness :
  dispatched
    (run_timers 54999
       (run [(0, js "/a"); (5000, js "/b"); (20000, js "/c"); (45000, js "/e")]%Z
            (new_dispatcher 0)))
  = [js "/b"; js "/c"].
Proof.
  apply (debounce_not_before_window (new_dispatcher 0) 0 (js "/a")
           [(5000, js "/b"); (20000, js "/c"); (45000, js "/e")]%Z 54999).
  - reflexivity.
  - simpl. lia.
  - reflexivity.
  - simpl. unfold debounceTime. lia.
Defined.

Lemma debounce_never_two_timers_witness :
  (length (timers (run_timers 7
                     (run [(50, js "/a"); (3, js "/b"); (3, js "/c")]%Z
                          (new_dispatcher 0)))) <= 1)%nat.
Proof.
  apply (debounce_never_two_timers (new_dispatcher 0)
           [(50, js "/a"); (3, js "/b"); (3, js "/c")]%Z 7).
  reflexivity.
Defined.
